(** * Ensoniq Mirage / SQ-80 floppy image format (formats/esq8_dsk.cpp)

    A shallow embedding of [esq8img_format]: the track layout descriptor
    [esq_6_desc], the geometry probe [find_size], [identify], [load] and
    [save], followed by a model of the track codec the format drives.

    Integers of the source are [Z]; [uint8_t] buffers are [list byte];
    bit-cell streams ([std::vector<bool>]) are [list bool]. *)

From Stdlib Require Import ZArith List Bool Lia.
From Stdlib.Strings Require Import Byte.
Import ListNotations.

Local Open Scope Z_scope.

(* ------------------------------------------------------------------ *)
(** ** The layout descriptor *)

Module Desc.

(** The instruction tags of [floppy_image_format_t::desc_e] that the
    descriptor of this format uses. *)
Inductive desc_type : Type :=
| END
| MFM
| RAW
| TRACK_ID
| HEAD_ID
| SECTOR_ID
| SIZE_ID
| CRC_CCITT_START
| CRC_END
| CRC
| SECTOR_DATA
| SECTOR_LOOP_START
| SECTOR_LOOP_END.

Definition desc_type_eqb (a b : desc_type) : bool :=
  match a, b with
  | END, END | MFM, MFM | RAW, RAW | TRACK_ID, TRACK_ID
  | HEAD_ID, HEAD_ID | SECTOR_ID, SECTOR_ID | SIZE_ID, SIZE_ID
  | CRC_CCITT_START, CRC_CCITT_START | CRC_END, CRC_END | CRC, CRC
  | SECTOR_DATA, SECTOR_DATA | SECTOR_LOOP_START, SECTOR_LOOP_START
  | SECTOR_LOOP_END, SECTOR_LOOP_END => true
  | _, _ => false
  end.

(** [struct desc_e { int type, p1, p2; }]; the fields an initialiser
    leaves out are zero. *)
Record desc_e : Type := mk_desc { type : desc_type; p1 : Z; p2 : Z }.

Definition D0 (t : desc_type) : desc_e := mk_desc t 0 0.
Definition D1 (t : desc_type) (a : Z) : desc_e := mk_desc t a 0.
Definition D2 (t : desc_type) (a b : Z) : desc_e := mk_desc t a b.

Definition desc_e_eqb (a b : desc_e) : bool :=
  desc_type_eqb (type a) (type b) && (p1 a =? p1 b) && (p2 a =? p2 b).

Definition esq_6_desc : list desc_e :=
  [ D2 MFM 0x4e 80;
    D2 MFM 0x00 12;
    D2 RAW 0x5224 3;
    D2 MFM 0xfc 1;
    D2 MFM 0x4e 50;
    D2 MFM 0x00 12;
    D2 SECTOR_LOOP_START 0 5;
    D1   CRC_CCITT_START 1;
    D2     RAW 0x4489 3;
    D2     MFM 0xfe 1;
    D0     TRACK_ID;
    D0     HEAD_ID;
    D0     SECTOR_ID;
    D0     SIZE_ID;
    D1   CRC_END 1;
    D1   CRC 1;
    D2   MFM 0x4e 22;
    D2   MFM 0x00 12;
    D1   CRC_CCITT_START 2;
    D2     RAW 0x4489 3;
    D2     MFM 0xfb 1;
    D1     SECTOR_DATA (-1);
    D1   CRC_END 2;
    D1   CRC 2;
    D2   MFM 0x4e 84;
    D2   MFM 0x00 12;
    D0 SECTOR_LOOP_END;
    D2 MFM 0x4e 170;
    D0 END ].

(** *** Structural checks on a descriptor *)

Definition count_type (t : desc_type) (d : list desc_e) : nat :=
  length (filter (fun e => desc_type_eqb (type e) t) d).

Definition has_type (t : desc_type) (e : desc_e) : bool :=
  desc_type_eqb (type e) t.

(** Loop markers nest correctly: never a second start inside an open loop,
    never an end without a start, nothing left open at the end. *)
Fixpoint loops_nest (open : bool) (d : list desc_e) : bool :=
  match d with
  | [] => negb open
  | e :: d' =>
      match type e with
      | SECTOR_LOOP_START => negb open && loops_nest true d'
      | SECTOR_LOOP_END => open && loops_nest false d'
      | _ => loops_nest open d'
      end
  end.

(** The sector indices a [SECTOR_LOOP_START p1 p2] runs through: the
    walker starts at [p1] and repeats the body while the index is below
    [p2], so both ends are included. *)
Definition loop_indices (e : desc_e) : list Z :=
  map (fun k => p1 e + Z.of_nat k) (seq 0 (Z.to_nat (p2 e - p1 e + 1))).

(** A checksum region opened with [id] is closed by [CRC_END id] before
    any other region marker, and the closing marker is directly followed
    by the emission [CRC id]. *)
Fixpoint crc_closed (id : Z) (d : list desc_e) : bool :=
  match d with
  | [] => false
  | e :: d' =>
      match type e with
      | CRC_END =>
          (p1 e =? id) &&
          match d' with
          | e' :: _ => has_type CRC e' && (p1 e' =? id)
          | [] => false
          end
      | CRC_CCITT_START | CRC | SECTOR_LOOP_START | SECTOR_LOOP_END | END =>
          false
      | _ => crc_closed id d'
      end
  end.

Fixpoint crc_regions_ok (d : list desc_e) : bool :=
  match d with
  | [] => true
  | e :: d' =>
      match type e with
      | CRC_CCITT_START => crc_closed (p1 e) d' && crc_regions_ok d'
      | _ => crc_regions_ok d'
      end
  end.

(** The instructions strictly between [CRC_CCITT_START id] and the next
    [CRC_END]. *)
Fixpoint until_crc_end (d : list desc_e) : list desc_e :=
  match d with
  | [] => []
  | e :: d' => if has_type CRC_END e then [] else e :: until_crc_end d'
  end.

Fixpoint crc_region (id : Z) (d : list desc_e) : list desc_e :=
  match d with
  | [] => []
  | e :: d' =>
      if has_type CRC_CCITT_START e && (p1 e =? id)
      then until_crc_end d'
      else crc_region id d'
  end.

(** The two raw words the format uses as sync marks. *)
Definition is_sync_value (v : Z) : bool := (v =? 0x5224) || (v =? 0x4489).

(** An instruction that places bytes supplied at encode time (ids, size
    code, payload, checksum) rather than a literal of the descriptor. *)
Definition carries_data (e : desc_e) : bool :=
  match type e with
  | TRACK_ID | HEAD_ID | SECTOR_ID | SIZE_ID | SECTOR_DATA | CRC => true
  | _ => false
  end.

(** The three parts of the descriptor around its loop markers. *)
Definition esq_6_pre : list desc_e :=
[ D2 MFM 0x4e 80; D2 MFM 0x00 12; D2 RAW 0x5224 3; D2 MFM 0xfc 1;
  D2 MFM 0x4e 50; D2 MFM 0x00 12 ].

Definition esq_6_id_region : list desc_e :=
[ D2 RAW 0x4489 3; D2 MFM 0xfe 1; D0 TRACK_ID; D0 HEAD_ID; D0 SECTOR_ID;
  D0 SIZE_ID ].

Definition esq_6_data_region : list desc_e :=
[ D2 RAW 0x4489 3; D2 MFM 0xfb 1; D1 SECTOR_DATA (-1) ].

Definition esq_6_body : list desc_e :=
D1 CRC_CCITT_START 1 :: esq_6_id_region ++
[ D1 CRC_END 1; D1 CRC 1; D2 MFM 0x4e 22; D2 MFM 0x00 12 ] ++
D1 CRC_CCITT_START 2 :: esq_6_data_region ++
[ D1 CRC_END 2; D1 CRC 2; D2 MFM 0x4e 84; D2 MFM 0x00 12 ].

Definition esq_6_post : list desc_e := [ D2 MFM 0x4e 170 ].

(** No loop marker and no [END] among the instructions. *)
Definition plain (d : list desc_e) : bool :=
forallb (fun e => negb (has_type SECTOR_LOOP_START e ||
                        has_type SECTOR_LOOP_END e || has_type END e)) d.

(** The ids of the checksum regions a list of instructions opens. *)
Definition crc_ids (d : list desc_e) : list Z :=
map p1 (filter (has_type CRC_CCITT_START) d).

End Desc.
Export Desc.

(* ------------------------------------------------------------------ *)
(** ** Control flow and state of the member functions *)

Module Flow.

(** What running a statement leads to: fall through to the next one,
    leave the function with [return b], or index a [std::vector] outside
    its bounds (where C++ gives the program no meaning). *)
Inductive flow (A : Type) : Type :=
| Next (a : A)
| Return (b : bool)
| OutOfBounds.
Arguments Next {A} a.
Arguments Return {A} b.
Arguments OutOfBounds {A}.

(** Statements over a state [S]. *)
Definition M (S A : Type) : Type := S -> flow A * S.

Definition ret {S A} (a : A) : M S A := fun s => (Next a, s).

Definition bind {S A B} (m : M S A) (k : A -> M S B) : M S B :=
  fun s =>
    match m s with
    | (Next a, s') => k a s'
    | (Return b, s') => (Return b, s')
    | (OutOfBounds, s') => (OutOfBounds, s')
    end.

Definition return_ {S A} (b : bool) : M S A := fun s => (Return b, s).
Definition fault {S A} : M S A := fun s => (OutOfBounds, s).
Definition get {S} : M S S := fun s => (Next s, s).
Definition modify {S} (f : S -> S) : M S unit := fun s => (Next tt, f s).

(** The body run once for each index of a list, in order. *)
Fixpoint for_each {S X} (l : list X) (body : X -> M S unit) : M S unit :=
  match l with
  | [] => ret tt
  | i :: l' => bind (body i) (fun _ => for_each l' body)
  end.

(** The indices [lo, lo+1, ..., hi-1]. *)
Definition zrange (lo hi : Z) : list Z :=
  map (fun k => lo + Z.of_nat k) (seq 0 (Z.to_nat (hi - lo))).

(** [for (int i = lo; i < hi; i++) body] *)
Definition for_ {S} (lo hi : Z) (body : Z -> M S unit) : M S unit :=
  for_each (zrange lo hi) body.

(** The value a [bool] member function hands back: [None] when it has
    no defined result. *)
Definition result {S A} (r : flow A * S) : option bool :=
  match fst r with
  | Return b => Some b
  | _ => None
  end.

End Flow.
Export Flow.

Notation "x <- m ;; k" := (bind m (fun x => k))
  (at level 61, m at next level, right associativity).
Notation "m ;; k" := (bind m (fun _ => k))
  (at level 61, right associativity).

(* ------------------------------------------------------------------ *)
(** ** The collaborators declared outside the file *)

(** [std::error_condition]: its conversion to [bool] holds when the value
    is not zero, so [!e] means that no error is reported. *)
Record error_condition : Type := { ec_value : Z }.

Definition ec_bool (e : error_condition) : bool := negb (ec_value e =? 0).

(** [util::random_read], the part the format calls.  [rr_length] is the
    condition [length(result)] returns together with the value it stores in
    [result]; [rr_read_at offset length] is the bytes a read delivers (their
    number is the [actual] the call reports). *)
Record random_read : Type := {
  rr_length : error_condition * Z;
  rr_read_at : Z -> Z -> list byte
}.

(** The length query reports no error. *)
Definition length_succeeds (io : random_read) : bool :=
  negb (ec_bool (fst (rr_length io))).

(** The length the query stores. *)
Definition container_length (io : random_read) : Z := snd (rr_length io).

(** A container held in memory: the length query succeeds with the number
    of bytes, and a read delivers the bytes from [offset] on, as many as
    were asked for or as are left. *)
Definition mem_reader (c : list byte) : random_read :=
  {| rr_length := ({| ec_value := 0 |}, Z.of_nat (List.length c));
     rr_read_at := fun offset length =>
       firstn (Z.to_nat length) (skipn (Z.to_nat offset) c) |}.

(** [floppy_image_format_t::desc_s] as [generate_track] sees it: [data] is
    the bytes the pointer designates when the call is made. *)
Record desc_s : Type := { data : list byte; size : Z; sector_id : Z }.

(** The base class [floppy_image_format_t] and [floppy_image], whose code
    is in flopimg.cpp: taken as an interface. *)
Class floppy_image_format_t : Type := {
  floppy_image : Type;
  DSDD : Z;
  generate_track :
    list desc_e -> Z -> Z -> list desc_s -> Z -> Z -> floppy_image ->
    floppy_image;
  set_variant : Z -> floppy_image -> floppy_image;
  get_geometry_mfm_pc : floppy_image -> Z -> Z * Z * Z;
  generate_bitstream_from_track : Z -> Z -> Z -> floppy_image -> list bool;
  extract_sectors_from_bitstream_mfm_pc : list bool -> list (list byte)
}.

(* ------------------------------------------------------------------ *)
(** ** esq8img_format *)

Module Esq8.

Definition supports_save : bool := true.

(** [find_size]: the three counts written through the references. *)
Definition find_size (io : random_read) : Z * Z * Z :=
  let '(err, size) := rr_length io in
  if negb (ec_bool err) then
    (* track_count = 80; head_count = 1; sector_count = 6; *)
    let g := (80, 1, 6) in
    if size =? 5632 * 80 then g else (0, 0, 0)
  else (0, 0, 0).

(** [identify]: the form factor and the variants are not looked at. *)
Definition identify (io : random_read) : Z :=
  let '(track_count, head_count, sector_count) := find_size io in
  if negb (track_count =? 0) then 50 else 0.

(** An entry of the local array [sectors] of [load]: [data] points
    [sp_ofs] bytes into the local array [sectdata]. *)
Record sector_ptr : Type := { sp_ofs : Z; sp_size : Z; sp_sector_id : Z }.

(** The sector a pointer designates, for the current buffer contents. *)
Definition deref (sectdata : list byte) (p : sector_ptr) : desc_s :=
  {| data := firstn (Z.to_nat (sp_size p))
               (skipn (Z.to_nat (sp_ofs p)) sectdata);
     size := sp_size p;
     sector_id := sp_sector_id p |}.

(** The first loop of [load]. *)
Definition load_sectors (sector_count : Z) : list sector_ptr :=
  map (fun i =>
         if i <? 5
         then {| sp_ofs := 1024 * i; sp_size := 1024; sp_sector_id := i |}
         else {| sp_ofs := 5 * 1024; sp_size := 512; sp_sector_id := i |})
      (zrange 0 sector_count).

Section WithImage.
Context {F : floppy_image_format_t}.

(** What [load] works on: its local buffer, the image behind the
    pointer, and the reads it has asked of the container (offset and
    length, in the order of the calls). *)
Record load_state : Type := {
  sectdata : list byte;
  image : floppy_image;
  reads : list (Z * Z)
}.

(** [io.read_at(offset, sectdata, length, actual)]: the bytes delivered
    overwrite the front of the buffer, the rest keeps what it held. *)
Definition read_at (io : random_read) (offset length : Z)
  : M load_state unit :=
  modify (fun s =>
    let got := firstn (Z.to_nat length) (rr_read_at io offset length) in
    {| sectdata := got ++ skipn (List.length got) (sectdata s);
       image := image s;
       reads := reads s ++ [(offset, length)] |}).

Definition on_image (f : floppy_image -> floppy_image)
  : M load_state unit :=
  modify (fun s =>
    {| sectdata := sectdata s; image := f (image s);
       reads := reads s |}).

Definition load_body (io : random_read) : M load_state unit :=
  let '(track_count, head_count, sector_count) := find_size io in
  let sectors := load_sectors sector_count in
  let track_size := 5 * 1024 + 512 in
  for_ 0 track_count (fun track =>
    for_ 0 head_count (fun head =>
      read_at io ((track * head_count + head) * track_size) track_size ;;
      s <- get ;;
      on_image (generate_track esq_6_desc track head
                  (map (deref (sectdata s)) sectors)
                  sector_count 109376))) ;;
  on_image (set_variant DSDD) ;;
  return_ true.

(** [load]: [buf] is what the local array happens to hold on entry. *)
Definition load (io : random_read) (buf : list byte)
    (img : floppy_image) : flow unit * load_state :=
  load_body io {| sectdata := buf; image := img; reads := [] |}.

(** What [save] works on: the running offset, the writes it has asked
    of the container (offset and bytes) and the lines given to
    [osd_printf_error] (track, sector, size), both in the order of the
    calls. *)
Record save_state : Type := {
  file_offset : Z;
  writes : list (Z * list byte);
  errors : list (Z * Z * Z)
}.

Definition vsize (v : list byte) : Z := Z.of_nat (List.length v).

(** [sectors[sector]] *)
Definition vector_at {S} (v : list (list byte)) (i : Z)
  : M S (list byte) :=
  match nth_error v (Z.to_nat i) with
  | Some x => ret x
  | None => fault
  end.

Definition osd_printf_error (track sector sz : Z) : M save_state unit :=
  modify (fun s =>
    {| file_offset := file_offset s; writes := writes s;
       errors := errors s ++ [(track, sector, sz)] |}).

(** [io.write_at(file_offset, data, length, actual)] *)
Definition write_at (d : list byte) (length : Z) : M save_state unit :=
  modify (fun s =>
    {| file_offset := file_offset s;
       writes := writes s ++ [(file_offset s, firstn (Z.to_nat length) d)];
       errors := errors s |}).

(** [file_offset += n] on a [uint64_t] *)
Definition advance (n : Z) : M save_state unit :=
  modify (fun s =>
    {| file_offset := (file_offset s + n) mod 2 ^ 64;
       writes := writes s; errors := errors s |}).

(** The three corrections [save] applies to the probed geometry. *)
Definition save_geometry (g : Z * Z * Z) : Z * Z * Z :=
  let '(track_count, head_count, sector_count) := g in
  let track_count := if negb (track_count =? 80) then 80 else track_count in
  let head_count := if head_count =? 0 then 1 else head_count in
  let sector_count :=
    if negb (sector_count =? 6) then 6 else sector_count in
  (track_count, head_count, sector_count).

Definition save_sector (sectors : list (list byte)) (track sector : Z)
  : M save_state unit :=
  let sector_expected_size := if sector <? 5 then 1024 else 512 in
  v <- vector_at sectors sector ;;
  if negb (vsize v =? sector_expected_size) then
    osd_printf_error track sector (vsize v) ;;
    return_ false
  else
    write_at v sector_expected_size ;;
    advance sector_expected_size.

Definition save_body (img : floppy_image) : M save_state unit :=
  let '(track_count, head_count, sector_count) :=
    save_geometry (get_geometry_mfm_pc img 2000) in
  for_ 0 track_count (fun track =>
    for_ 0 head_count (fun head =>
      let bitstream := generate_bitstream_from_track track head 2000 img in
      let sectors := extract_sectors_from_bitstream_mfm_pc bitstream in
      for_ 0 sector_count (fun sector =>
        save_sector sectors track sector))) ;;
  return_ true.

Definition save (img : floppy_image) : flow unit * save_state :=
  save_body img {| file_offset := 0; writes := []; errors := [] |}.

End WithImage.

End Esq8.
Export Esq8.

(* ------------------------------------------------------------------ *)
(** ** Vocabulary for the statements about [load] and [save] *)

Module Observe.

(** The fixed size policy: 1024 bytes for the sector positions 0-4, 512
    bytes for position 5. *)
Definition expected_size (sector : Z) : Z :=
  if sector <? 5 then 1024 else 512.

(** The number of bytes a read reports in [actual]. *)
Definition actual (io : random_read) (offset length : Z) : Z :=
  Z.of_nat (List.length (firstn (Z.to_nat length) (rr_read_at io offset length))).

(** Of a track record of which a read delivered [n] bytes, the number that
    reached the payload of the sector at position [i]. *)
Definition recovered_size (n i : Z) : Z :=
  Z.max 0 (Z.min (expected_size i) (n - 1024 * i)).

(** The bytes of [c] from [offset] on, [length] of them. *)
Definition slice (c : list byte) (offset length : Z) : list byte :=
  firstn (Z.to_nat length) (skipn (Z.to_nat offset) c).

(** The six sectors of the track record that starts at [offset] in [c]. *)
Definition record_sectors (c : list byte) (offset : Z) : list desc_s :=
  map (fun i => {| data := slice c (offset + 1024 * i) (expected_size i);
                   size := expected_size i;
                   sector_id := i |})
      (zrange 0 6).

(** A call on the image. *)
Inductive image_call : Type :=
| GenerateTrack (desc : list desc_e) (track head : Z) (sect : list desc_s)
    (sect_count track_size : Z)
| SetVariant (v : Z).

(** An image that is the list of the calls made on it, in order; read
    back, track [t] holds [t] cells and yields the sectors [on_track t],
    and the probe reports [probe]. *)
Definition recording (probe : Z * Z * Z)
    (on_track : Z -> list (list byte)) : floppy_image_format_t :=
  {| floppy_image := list image_call;
     DSDD := 0x44445344;
     generate_track := fun desc track head sect sect_count track_size img =>
       img ++ [GenerateTrack desc track head sect sect_count track_size];
     set_variant := fun v img => img ++ [SetVariant v];
     get_geometry_mfm_pc := fun _ _ => probe;
     generate_bitstream_from_track := fun track _ _ _ =>
       repeat true (Z.to_nat track);
     extract_sectors_from_bitstream_mfm_pc := fun bitstream =>
       on_track (Z.of_nat (List.length bitstream)) |}.

(** A recorded call hands over six sectors with the sizes of the policy
    and the ids 0..5. *)
Definition policy_sized (c : image_call) : Prop :=
  match c with
  | GenerateTrack _ _ _ sect sect_count _ =>
      map size sect = [1024; 1024; 1024; 1024; 1024; 512] /\
      map sector_id sect = [0; 1; 2; 3; 4; 5] /\
      sect_count = 6
  | SetVariant _ => True
  end.

(** Sample media: a track of six sectors that follow the policy, a track
    whose third sector has 512 bytes, a medium with the second kind of track
    at track 1 only, and a medium whose probe finds nothing. *)
Definition zeros (n : Z) : list byte := repeat "000"%byte (Z.to_nat n).

Definition formatted_track : list (list byte) :=
  [zeros 1024; zeros 1024; zeros 1024; zeros 1024; zeros 1024; zeros 512].

Definition damaged_track : list (list byte) :=
  [zeros 1024; zeros 1024; zeros 512; zeros 1024; zeros 1024; zeros 512].

Definition damaged_medium : floppy_image_format_t :=
  recording (80, 1, 6)
    (fun t => if t =? 1 then damaged_track else formatted_track).

(** A medium on which no sector is found: every track extracts to the
    empty vector, and the probe reports no head. *)
Definition blank_medium : floppy_image_format_t :=
  recording (80, 0, 0) (fun _ => []).

(** A medium with two heads whose tracks all follow the policy. *)
Definition double_sided_medium : floppy_image_format_t :=
  recording (80, 2, 6) (fun _ => formatted_track).

(** A medium with one head whose tracks all follow the policy. *)
Definition single_sided_medium : floppy_image_format_t :=
  recording (80, 1, 6) (fun _ => formatted_track).

Definition unprobed_medium : floppy_image_format_t :=
  recording (0, 0, 0) (fun _ => formatted_track).

(** A container that reports the recognized length and delivers nothing. *)
Definition silent_reader : random_read :=
  {| rr_length := ({| ec_value := 0 |}, 450560);
     rr_read_at := fun _ _ => [] |}.

(** The buffer after the read for a track. *)
Definition buffer_after (io : random_read) (t : Z) (sd : list byte)
  : list byte :=
  firstn (Z.to_nat 5632) (rr_read_at io ((t * 1 + 0) * 5632) 5632) ++
  skipn (length (firstn (Z.to_nat 5632)
                   (rr_read_at io ((t * 1 + 0) * 5632) 5632))) sd.

(** The payload bytes handed over in the recorded calls, in order. *)
Definition calls_data (img : list image_call) : list byte :=
  flat_map (fun call =>
              match call with
              | GenerateTrack _ _ _ sect _ _ => flat_map data sect
              | SetVariant _ => []
              end) img.

(** The first six vectors extracted for a track as sectors with the ids
    0..5 and the sizes of the policy. *)
Definition as_sectors (vs : list (list byte)) : list desc_s :=
  map (fun i => {| data := nth (Z.to_nat i) vs [];
                   size := expected_size i;
                   sector_id := i |})
      (zrange 0 6).

(** A container held in memory after [write_at(offset, d, length d)]: the
    bytes in front of [offset] stay (zero bytes fill up to it when the
    container is shorter), then [d], then what lay behind. *)
Definition write_bytes (c : list byte) (offset : Z) (d : list byte)
  : list byte :=
  firstn (Z.to_nat offset) c ++
  repeat "000"%byte (Z.to_nat offset - length c) ++
  d ++ skipn (Z.to_nat offset + length d) c.

(** The container after a list of writes, in their order. *)
Definition container_after (ws : list (Z * list byte)) (c : list byte)
  : list byte :=
  fold_left (fun c w => write_bytes c (fst w) (snd w)) ws c.

Section WithImage.
Context {F : floppy_image_format_t}.

(** The sectors [save] extracts for a track and head. *)
Definition sectors_at (img : floppy_image) (track head : Z)
  : list (list byte) :=
  extract_sectors_from_bitstream_mfm_pc
    (generate_bitstream_from_track track head 2000 img).

(** The size of the sector [save] looks at in position [sector]; [None]
    when the extracted vector has no such position. *)
Definition extracted_size (img : floppy_image) (c : Z * Z * Z)
  : option Z :=
  let '(track, head, sector) := c in
  option_map vsize (nth_error (sectors_at img track head) (Z.to_nat sector)).

(** The sector in position [sector] has the size of the policy. *)
Definition size_ok (img : floppy_image) (c : Z * Z * Z) : bool :=
  match extracted_size img c with
  | Some n => n =? expected_size (snd c)
  | None => false
  end.

(** The (track, head, sector) triples in the order three nested loops with
    these bounds go through them. *)
Definition save_coords (track_count head_count sector_count : Z)
  : list (Z * Z * Z) :=
  flat_map (fun track =>
    flat_map (fun head =>
      map (fun sector => (track, head, sector)) (zrange 0 sector_count))
      (zrange 0 head_count))
    (zrange 0 track_count).

(** One turn of the innermost loop of [save]. *)
Definition save_step (img : floppy_image) (c : Z * Z * Z)
  : M save_state unit :=
  let '(track, head, sector) := c in
  save_sector (sectors_at img track head) track sector.

(** The writes of the sectors at [l] as the innermost loop issues them
    when every size fits: the first at offset [off], each one behind the
    one before on the 64-bit offset. *)
Fixpoint writes_from (img : floppy_image) (off : Z) (l : list (Z * Z * Z))
  : list (Z * list byte) :=
  match l with
  | [] => []
  | (track, head, sector) :: l' =>
      (off, nth (Z.to_nat sector) (sectors_at img track head) [])
        :: writes_from img ((off + expected_size sector) mod 2 ^ 64) l'
  end.

(** The offset after the sectors at [l]. *)
Definition offset_after (off : Z) (l : list (Z * Z * Z)) : Z :=
  fold_left (fun o c => (o + expected_size (snd c)) mod 2 ^ 64) l off.

(** The triples of [l] before the first whose size does not fit. *)
Fixpoint good_prefix (img : floppy_image) (l : list (Z * Z * Z))
  : list (Z * Z * Z) :=
  match l with
  | [] => []
  | c :: l' => if size_ok img c then c :: good_prefix img l' else []
  end.

(** The first triple of [l] whose size does not fit. *)
Definition first_bad (img : floppy_image) (l : list (Z * Z * Z))
  : option (Z * Z * Z) :=
  find (fun c => negb (size_ok img c)) l.

(** How the loop over the triples of [l] ends. *)
Definition save_outcome (img : floppy_image) (l : list (Z * Z * Z)) : flow unit :=
  match first_bad img l with
  | None => Next tt
  | Some c =>
      match extracted_size img c with
      | Some _ => Return false
      | None => OutOfBounds
      end
  end.

(** The error lines of the loop over the triples of [l]. *)
Definition save_errors (img : floppy_image) (l : list (Z * Z * Z)) : list (Z * Z * Z) :=
  match first_bad img l with
  | None => []
  | Some c =>
      match extracted_size img c with
      | Some n => [(fst (fst c), snd c, n)]
      | None => []
      end
  end.

(** The payload [save] writes for a triple. *)
Definition sector_data (img : floppy_image) (c : Z * Z * Z) : list byte :=
  nth (Z.to_nat (snd c)) (sectors_at img (fst (fst c)) (snd (fst c))) [].

(** The head count the probe of [save] reports. *)
Definition probed_heads (img : floppy_image) : Z :=
  snd (fst (get_geometry_mfm_pc img 2000)).

(** The triples [save] goes through for an image. *)
Definition coords_of (img : floppy_image) : list (Z * Z * Z) :=
  save_coords 80 (if probed_heads img =? 0 then 1 else probed_heads img) 6.

(** The head count [save] loops over, for the probed one. *)
Definition forced_heads (head_count : Z) : Z :=
  if head_count =? 0 then 1 else head_count.

(** The calls [load] makes on the image for the tracks [l] of a container
    held in memory. *)
Definition tracks_generated (c : list byte) (l : list Z)
    (img : floppy_image) : floppy_image :=
  fold_left (fun im track =>
               generate_track esq_6_desc track 0
                 (record_sectors c ((track * 1 + 0) * 5632)) 6 109376 im)
            l img.

(** The inner loop of [load] for one track. *)
Definition load_track (io : random_read) (head_count sector_count : Z)
    (track : Z) : M load_state unit :=
  for_ 0 head_count (fun head =>
    read_at io ((track * head_count + head) * (5 * 1024 + 512))
      (5 * 1024 + 512) ;;
    s <- get ;;
    on_image (generate_track esq_6_desc track head
                (map (deref (sectdata s)) (load_sectors sector_count))
                sector_count 109376)).

(** The total size of a list of writes. *)
Definition written (ws : list (Z * list byte)) : Z :=
  fold_right (fun w n => vsize (snd w) + n) 0 ws.

(** Writes laid out one behind the other from [off], each of 1024 or 512
    bytes. *)
Fixpoint laid_out (off : Z) (ws : list (Z * list byte)) : Prop :=
  match ws with
  | [] => True
  | w :: ws' =>
      fst w = off /\ (vsize (snd w) = 1024 \/ vsize (snd w) = 512) /\
      laid_out (off + vsize (snd w)) ws'
  end.

(** Where the flat layout puts a sector: the track records follow each
    other, 5632 bytes each, and in a record the sectors follow each other. *)
Definition sector_offset (head_count : Z) (c : Z * Z * Z) : Z :=
  let '(track, head, sector) := c in
  (track * head_count + head) * 5632 + 1024 * sector.

(** The triples of one track record. *)
Definition record_coords (track head : Z) : list (Z * Z * Z) :=
  map (fun sector => (track, head, sector)) (zrange 0 6).

(** The bytes [save] passes to [write_at] for one track and head. *)
Definition saved_record (img : floppy_image) (t h : Z) : list byte :=
  flat_map (sector_data img) (record_coords t h).

End WithImage.

End Observe.
Export Observe.

(* ------------------------------------------------------------------ *)
(** ** The track codec

    [generate_track] and [extract_sectors_from_bitstream_mfm_pc] are code
    of flopimg.cpp.  The definitions of this module follow the design the
    specification gives for them (sections 4.1 to 4.4). *)

Module Codec.

(** *** Bits *)

(** The [n] low bits of [v], the highest first. *)
Definition z_bits (n : nat) (v : Z) : list bool :=
  map (fun i => Z.testbit v (Z.of_nat i)) (rev (seq 0 n)).

(** The number a list of bits spells, the highest first. *)
Definition bits_z (l : list bool) : Z :=
  fold_left (fun a b => 2 * a + Z.b2z b) l 0.

Definition byte_bits (b : byte) : list bool :=
  let '(b0, (b1, (b2, (b3, (b4, (b5, (b6, b7))))))) := Byte.to_bits b in
  [b7; b6; b5; b4; b3; b2; b1; b0].

Definition bits_byte (l : list bool) : byte :=
  match l with
  | [b7; b6; b5; b4; b3; b2; b1; b0] =>
      Byte.of_bits (b0, (b1, (b2, (b3, (b4, (b5, (b6, b7)))))))
  | _ => "000"%byte
  end.

(** The bytes a list of bits spells, eight bits each. *)
Fixpoint bits_bytes (n : nat) (l : list bool) : list byte :=
  match n with
  | O => []
  | S n' => bits_byte (firstn 8 l) :: bits_bytes n' (skipn 8 l)
  end.

(** [n] copies of a pattern. *)
Definition repeat_bits (n : Z) (bits : list bool) : list bool :=
  concat (repeat bits (Z.to_nat n)).

(** *** Modulation *)

(** Modelled from the spec: the normal modulation of data bits into bit
    cells, which the spec names and leaves to the recording standard (MFM):
    every data bit is a clock cell followed by a data cell, and the clock
    cell is set between two zero bits only. *)
Fixpoint mfm_cells (prev : bool) (bits : list bool) : list bool :=
  match bits with
  | [] => []
  | d :: r => (negb prev && negb d) :: d :: mfm_cells d r
  end.

(** The data cells of a run of cells: every second one. *)
Fixpoint data_bits (cells : list bool) : list bool :=
  match cells with
  | _ :: d :: r => d :: data_bits r
  | _ => []
  end.

(** The sync mark: the raw word 0x4489, which carries the byte 0xa1 with
    one clock cell left out. *)
Definition sync_word : list bool := z_bits 16 0x4489.

(** *** Checksum engine (spec 4.1) *)

(** Modelled from the spec: `accumulate` folds into the running 16-bit
    value with the fixed polynomial (CCITT, x^16 + x^12 + x^5 + 1), one bit
    at a time, the highest bit of a byte first. *)
Definition crc_step (r : Z) (b : bool) : Z :=
  let r1 := Z.shiftl r 1 mod 2 ^ 16 in
  if xorb (Z.testbit r 15) b then Z.lxor r1 0x1021 else r1.

Definition crc_bits (r : Z) (bits : list bool) : Z := fold_left crc_step bits r.

(** The 16-bit value over a span that starts a region. *)
Definition crc16 (bits : list bool) : Z := crc_bits 0xffff bits mod 2 ^ 16.

(** A region: its running value, and whether it still accumulates. *)
Record region : Type := { acc : Z; is_open : bool }.

(** The regions by id, the latest started first. *)
Definition engine : Type := list (Z * region).

(** Modelled from the spec: `start(id)` begins accumulation under [id]. *)
Definition crc_start (id : Z) (e : engine) : engine :=
  (id, {| acc := 0xffff; is_open := true |}) ::
  filter (fun p => negb (fst p =? id)) e.

(** Every open region takes the bits in. *)
Definition crc_accumulate (bits : list bool) (e : engine) : engine :=
  map (fun p =>
         if is_open (snd p)
         then (fst p, {| acc := crc_bits (acc (snd p)) bits; is_open := true |})
         else p) e.

Fixpoint crc_find (id : Z) (e : engine) : option region :=
  match e with
  | [] => None
  | p :: e' => if fst p =? id then Some (snd p) else crc_find id e'
  end.

(** Modelled from the spec: `finalize(id)` closes the region and keeps its
    16-bit value; on an id that is not open it is an error. *)
Definition crc_finalize (id : Z) (e : engine) : option engine :=
  match crc_find id e with
  | Some r =>
      if is_open r
      then Some ((id, {| acc := acc r mod 2 ^ 16; is_open := false |}) ::
                 filter (fun p => negb (fst p =? id)) e)
      else None
  | None => None
  end.

(** The value of a finalized region. *)
Definition crc_value (id : Z) (e : engine) : option Z :=
  match crc_find id e with
  | Some r => if is_open r then None else Some (acc r)
  | None => None
  end.

(** *** Track encoder (spec 4.3) *)

(** The walker: the cells written so far, the last data bit written (the
    modulation looks back one bit), and the checksum engine. *)
Record walker : Type := { out : list bool; prev : bool; crc : engine }.

Definition walker_start : walker := {| out := []; prev := false; crc := [] |}.

(** Data bits through the normal modulation. *)
Definition put_data (bits : list bool) (w : walker) : walker :=
  {| out := out w ++ mfm_cells (prev w) bits;
     prev := last bits (prev w);
     crc := crc_accumulate bits (crc w) |}.

(** Cells written as they are; the checksum sees their data cells. *)
Definition put_raw (cells : list bool) (w : walker) : walker :=
  {| out := out w ++ cells;
     prev := last cells (prev w);
     crc := crc_accumulate (data_bits cells) (crc w) |}.

Definition with_crc (e : engine) (w : walker) : walker :=
  {| out := out w; prev := prev w; crc := e |}.

(** The size code of a sector size: 128 << code. *)
Definition size_code (sz : Z) : Z := Z.log2 (sz / 128).

Definition sector_at (sect : list desc_s) (idx : Z) : option desc_s :=
  if idx <? 0 then None else nth_error sect (Z.to_nat idx).

(** Modelled from the spec: one instruction of the layout, for the track
    and head being encoded and the sector index of the loop. *)
Definition put_instr (track head : Z) (sect : list desc_s) (idx : Z)
    (e : desc_e) (w : walker) : option walker :=
  match type e with
  | MFM => Some (put_data (repeat_bits (p2 e) (z_bits 8 (p1 e))) w)
  | RAW => Some (put_raw (repeat_bits (p2 e) (z_bits 16 (p1 e))) w)
  | TRACK_ID => Some (put_data (z_bits 8 track) w)
  | HEAD_ID => Some (put_data (z_bits 8 head) w)
  | SECTOR_ID =>
      match sector_at sect idx with
      | Some s => Some (put_data (z_bits 8 (sector_id s)) w)
      | None => None
      end
  | SIZE_ID =>
      match sector_at sect idx with
      | Some s => Some (put_data (z_bits 8 (size_code (size s))) w)
      | None => None
      end
  | CRC_CCITT_START => Some (with_crc (crc_start (p1 e) (crc w)) w)
  | CRC_END =>
      match crc_finalize (p1 e) (crc w) with
      | Some e' => Some (with_crc e' w)
      | None => None
      end
  | CRC =>
      match crc_value (p1 e) (crc w) with
      | Some v => Some (put_data (z_bits 16 v) w)
      | None => None
      end
  | SECTOR_DATA =>
      match sector_at sect (if p1 e <? 0 then idx else p1 e) with
      | Some s =>
          Some (put_data
                  (flat_map byte_bits (firstn (Z.to_nat (size s)) (data s)))
                  w)
      | None => None
      end
  | SECTOR_LOOP_START | SECTOR_LOOP_END | END => Some w
  end.

(** Instructions one after the other, up to [END]. *)
Fixpoint put_block (track head : Z) (sect : list desc_s) (idx : Z)
    (d : list desc_e) (w : walker) : option walker :=
  match d with
  | [] => Some w
  | e :: d' =>
      if has_type END e then Some w
      else match put_instr track head sect idx e w with
           | Some w' => put_block track head sect idx d' w'
           | None => None
           end
  end.

(** The loop body once per sector index. *)
Fixpoint put_loop (track head : Z) (sect : list desc_s)
    (body : list desc_e) (idxs : list Z) (w : walker) : option walker :=
  match idxs with
  | [] => Some w
  | i :: idxs' =>
      match put_block track head sect i body w with
      | Some w' => put_loop track head sect body idxs' w'
      | None => None
      end
  end.

(** The instructions before the first one of type [t], that one, and the
    ones after it. *)
Fixpoint split_at (t : desc_type) (d : list desc_e)
  : option (list desc_e * desc_e * list desc_e) :=
  match d with
  | [] => None
  | e :: d' =>
      if has_type t e then Some ([], e, d')
      else match split_at t d' with
           | Some (a, m, b) => Some (e :: a, m, b)
           | None => None
           end
  end.

(** Modelled from the spec: `encode(layout, sectors[], track_id, head_id)`,
    one walk through the layout from left to right, the instructions
    between the loop markers once per sector index. *)
Definition encode (desc : list desc_e) (track head : Z)
    (sect : list desc_s) : option (list bool) :=
  match split_at SECTOR_LOOP_START desc with
  | None => option_map out (put_block track head sect 0 desc walker_start)
  | Some (before, start, rest) =>
      match split_at SECTOR_LOOP_END rest with
      | None => None
      | Some (body, _, after) =>
          match put_block track head sect 0 before walker_start with
          | None => None
          | Some w1 =>
              match put_loop track head sect body (loop_indices start) w1 with
              | None => None
              | Some w2 =>
                  option_map out (put_block track head sect 0 after w2)
              end
          end
      end
  end.

(** *** Track decoder (spec 4.4) *)

Fixpoint starts_with (p l : list bool) : bool :=
  match p with
  | [] => true
  | a :: p' =>
      match l with
      | b :: l' => Bool.eqb a b && starts_with p' l'
      | [] => false
      end
  end.

(** The cells behind a run of sync marks; [fuel] bounds the length of the
    run. *)
Fixpoint skip_syncs (fuel : nat) (l : list bool) : list bool :=
  match fuel with
  | O => l
  | S f => if starts_with sync_word l then skip_syncs f (skipn 16 l) else l
  end.

(** The cells behind the first sync mark (and the marks that follow it at
    once) that starts within the first [window] cells. *)
Fixpoint find_sync (window : nat) (l : list bool) : option (list bool) :=
  match window with
  | O => None
  | S n =>
      match l with
      | [] => None
      | _ :: r =>
          if starts_with sync_word l then Some (skip_syncs (length l) l)
          else find_sync n r
      end
  end.

(** [n] data bits, out of twice as many cells; [None] when the cells run
    out. *)
Fixpoint read_bits (n : nat) (l : list bool)
  : option (list bool * list bool) :=
  match n with
  | O => Some ([], l)
  | S n' =>
      match l with
      | _ :: d :: r =>
          match read_bits n' r with
          | Some (bs, r') => Some (d :: bs, r')
          | None => None
          end
      | _ => None
      end
  end.

(** A sector the decoder resolved: the fields of its identification
    field, whose checksum was valid, its payload, and whether the checksum
    of the data field was valid. *)
Record found : Type := {
  f_track : Z;
  f_head : Z;
  f_sector_id : Z;
  f_size_code : Z;
  f_data : list byte;
  f_data_crc_ok : bool
}.

Inductive slot : Type :=
| Unresolved
| Resolved (f : found).

(** The data bits of the three sync marks in front of a field. *)
Definition sync_data : list bool :=
  data_bits sync_word ++ data_bits sync_word ++ data_bits sync_word.

(** The window, in cells, in which the sync mark of the data field has to
    start behind an identification field. *)
Definition data_window : nat := 1024.

Fixpoint set_slot (i : nat) (x : slot) (slots : list slot) : list slot :=
  match slots with
  | [] => []
  | y :: slots' =>
      match i with
      | O => x :: slots'
      | S i' => y :: set_slot i' x slots'
      end
  end.

(** Modelled from the spec: what follows a sync mark.  An identification
    field (mark 0xfe, track, head, sector, size code, checksum) with a valid
    checksum, then within the window the sync mark of a data field (mark
    0xfb), whose payload has the size expected for the sector id; the result
    is the slot to fill, if any, and the cells to go on with. *)
Definition decode_field (sizes : list Z) (l : list bool)
  : option (nat * found) * list bool :=
  match read_bits 8 l with
  | None => (None, [])
  | Some (mark, l1) =>
      if negb (bits_z mark =? 0xfe) then (None, l)
      else
        match read_bits 48 l1 with
        | None => (None, [])
        | Some (f, l2) =>
            let ids := firstn 32 f in
            if negb (bits_z (skipn 32 f) =? crc16 (sync_data ++ mark ++ ids))
            then (None, l2)
            else
              let sector := bits_z (firstn 8 (skipn 16 ids)) in
              match nth_error sizes (Z.to_nat sector) with
              | None => (None, l2)
              | Some sz =>
                  match find_sync data_window l2 with
                  | None => (None, l2)
                  | Some l3 =>
                      match read_bits 8 l3 with
                      | None => (None, [])
                      | Some (dmark, l4) =>
                          if negb (bits_z dmark =? 0xfb) then (None, l2)
                          else
                            let n := (8 * Z.to_nat sz)%nat in
                            match read_bits (n + 16) l4 with
                            | None => (None, [])
                            | Some (d, l5) =>
                                let payload := firstn n d in
                                (Some
                                   (Z.to_nat sector,
                                    {| f_track := bits_z (firstn 8 ids);
                                       f_head :=
                                         bits_z (firstn 8 (skipn 8 ids));
                                       f_sector_id := sector;
                                       f_size_code :=
                                         bits_z (firstn 8 (skipn 24 ids));
                                       f_data :=
                                         bits_bytes (Z.to_nat sz) payload;
                                       f_data_crc_ok :=
                                         bits_z (skipn n d) =?
                                         crc16 (sync_data ++ dmark ++ payload)
                                    |}),
                                 l5)
                            end
                      end
                  end
              end
        end
  end.

(** Sync mark after sync mark, until the cells run out. *)
Fixpoint decode_loop (fuel : nat) (sizes : list Z) (l : list bool)
    (slots : list slot) : list slot :=
  match fuel with
  | O => slots
  | S fuel' =>
      match find_sync (length l) l with
      | None => slots
      | Some l1 =>
          let '(r, l2) := decode_field sizes l1 in
          decode_loop fuel' sizes l2
            (match r with
             | Some (i, x) => set_slot i (Resolved x) slots
             | None => slots
             end)
      end
  end.

(** Modelled from the spec: `decode(raw_track_bits, sector_count,
    expected_sizes[])`, the slots indexed by the sector id found in the
    identification field.  Every sync mark takes cells, so as many turns as
    there are cells are enough. *)
Definition decode (bits : list bool) (sector_count : Z) (sizes : list Z)
  : list slot :=
  decode_loop (length bits) (firstn (Z.to_nat sector_count) sizes) bits
    (repeat Unresolved (Z.to_nat sector_count)).

End Codec.
Export Codec.

(* ------------------------------------------------------------------ *)
(** ** Vocabulary for the statements about the codec *)

Module CodecLayout.

(** What the encoder writes in one go: cells as they are, or data bits
    through the modulation. *)
Inductive item : Type :=
| Raw (cells : list bool)
| Data (bits : list bool).

Definition item_cells (p : bool) (it : item) : list bool :=
  match it with
  | Raw c => c
  | Data b => mfm_cells p b
  end.

Definition item_last (p : bool) (it : item) : bool :=
  match it with
  | Raw c => last c p
  | Data b => last b p
  end.

(** The cells of a list of items written behind a data bit [p]. *)
Fixpoint layout (p : bool) (items : list item) : list bool :=
  match items with
  | [] => []
  | it :: r => item_cells p it ++ layout (item_last p it) r
  end.

Fixpoint layout_last (p : bool) (items : list item) : bool :=
  match items with
  | [] => p
  | it :: r => layout_last (item_last p it) r
  end.

(** The number of cells of a list of items. *)
Fixpoint items_size (items : list item) : Z :=
  match items with
  | [] => 0
  | Raw c :: r => Z.of_nat (length c) + items_size r
  | Data b :: r => 2 * Z.of_nat (length b) + items_size r
  end.

Definition gap (n : Z) : item := Data (repeat_bits n (z_bits 8 0x4e)).
Definition zero_gap (n : Z) : item := Data (repeat_bits n (z_bits 8 0)).
Definition sync3 : item := Raw (repeat_bits 3 sync_word).

(** The bits of an identification field and of a data field, mark first,
    checksum left out. *)
Definition id_bits (track head : Z) (s : desc_s) : list bool :=
  z_bits 8 0xfe ++ z_bits 8 track ++ z_bits 8 head ++
  z_bits 8 (sector_id s) ++ z_bits 8 (size_code (size s)).

Definition payload_bits (s : desc_s) : list bool :=
  flat_map byte_bits (firstn (Z.to_nat (size s)) (data s)).

Definition data_field_bits (s : desc_s) : list bool :=
  z_bits 8 0xfb ++ payload_bits s.

(** The two gaps inside and behind a sector. *)
Definition gap1_items : list item := [gap 22; zero_gap 12].
Definition gap2_items : list item := [gap 84; zero_gap 12].

(** A sector from the mark of its identification field to the checksum of
    its data field. *)
Definition sector_core (track head : Z) (s : desc_s) : list item :=
  [ Data (z_bits 8 0xfe); Data (z_bits 8 track); Data (z_bits 8 head);
    Data (z_bits 8 (sector_id s)); Data (z_bits 8 (size_code (size s)));
    Data (z_bits 16 (crc16 (sync_data ++ id_bits track head s))) ] ++
  gap1_items ++
  [ sync3;
    Data (z_bits 8 0xfb);
    Data (payload_bits s);
    Data (z_bits 16 (crc16 (sync_data ++ data_field_bits s))) ].

Definition sector_items (track head : Z) (s : desc_s) : list item :=
  sync3 :: sector_core track head s ++ gap2_items.

Definition pre_items : list item :=
  [ gap 80; zero_gap 12; Raw (repeat_bits 3 (z_bits 16 0x5224));
    Data (z_bits 8 0xfc); gap 50; zero_gap 12 ].

Definition post_items : list item := [ gap 170 ].

Definition track_items (track head : Z) (sect : list desc_s) : list item :=
  pre_items ++ flat_map (sector_items track head) sect ++ post_items.

(** The item an instruction writes that is neither a checksum nor a loop
    instruction. *)
Definition plain_item (track head : Z) (sect : list desc_s) (idx : Z)
    (e : desc_e) : option item :=
  match type e with
  | MFM => Some (Data (repeat_bits (p2 e) (z_bits 8 (p1 e))))
  | RAW => Some (Raw (repeat_bits (p2 e) (z_bits 16 (p1 e))))
  | TRACK_ID => Some (Data (z_bits 8 track))
  | HEAD_ID => Some (Data (z_bits 8 head))
  | SECTOR_ID =>
      option_map (fun s => Data (z_bits 8 (sector_id s))) (sector_at sect idx)
  | SIZE_ID =>
      option_map (fun s => Data (z_bits 8 (size_code (size s))))
        (sector_at sect idx)
  | SECTOR_DATA =>
      option_map (fun s => Data (payload_bits s))
        (sector_at sect (if p1 e <? 0 then idx else p1 e))
  | _ => None
  end.

Fixpoint plain_items (track head : Z) (sect : list desc_s) (idx : Z)
    (d : list desc_e) : option (list item) :=
  match d with
  | [] => Some []
  | e :: d' =>
      match plain_item track head sect idx e with
      | Some it =>
          option_map (cons it) (plain_items track head sect idx d')
      | None => None
      end
  end.

Definition put_item (it : item) (w : walker) : walker :=
  match it with
  | Raw c => put_raw c w
  | Data b => put_data b w
  end.

Definition put_items (its : list item) (w : walker) : walker :=
  fold_left (fun w it => put_item it w) its w.

(** The data bits the checksum sees of a list of items. *)
Definition items_data (its : list item) : list bool :=
  flat_map (fun it => match it with Raw c => data_bits c | Data b => b end)
    its.

(** No sync mark starts in [g] when [tail] follows it. *)
Fixpoint clean (g tail : list bool) : bool :=
  match g with
  | [] => true
  | _ :: g' => negb (starts_with sync_word (g ++ tail)) && clean g' tail
  end.

(** The sync mark without its last cell. *)
Definition sync_head : list bool := firstn 15 sync_word.

(** Six sectors as [load] hands them over: the ids 0..5, the sizes of the
    policy, and as many bytes as the size says. *)
Definition policy_sectors (sect : list desc_s) : Prop :=
  map sector_id sect = [0; 1; 2; 3; 4; 5] /\
  map size sect = [1024; 1024; 1024; 1024; 1024; 512] /\
  Forall (fun s => Z.of_nat (length (data s)) = size s) sect.

(** The slot the decoder is to give back for a sector. *)
Definition resolved (track head : Z) (s : desc_s) : slot :=
  Resolved {| f_track := track; f_head := head;
              f_sector_id := sector_id s;
              f_size_code := size_code (size s);
              f_data := data s;
              f_data_crc_ok := true |}.

(** Six sectors of zero bytes that follow the policy. *)
Definition sample_sectors : list desc_s :=
  map (fun i => {| data := zeros (expected_size i);
                   size := expected_size i;
                   sector_id := i |})
      (zrange 0 6).

End CodecLayout.
Export CodecLayout.

(* ------------------------------------------------------------------ *)
(** * Properties of the layout descriptor *)

Lemma desc_type_eqb_eq (a b : desc_type) : desc_type_eqb a b = true <-> a = b.
Proof. destruct a, b; simpl; split; intro H; congruence. Qed.

(** C7: [esq_6_desc] is well formed.  It is a prefix, one
    [SECTOR_LOOP_START 0 5], the per-sector body, the one matching
    [SECTOR_LOOP_END], a suffix and the final [END]; the loop runs through
    the sector indices 0..5, six iterations; the body opens the checksum
    regions 1 and 2, each closed by [CRC_END] with its id followed at once by
    [CRC] with its id; region 1 encloses the sync words, the 0xfe mark and
    the track, head, sector and size fields, region 2 the sync words, the
    0xfb mark and the sector payload. *)
Theorem esq_6_desc_well_formed :
  esq_6_desc =
    esq_6_pre ++ D2 SECTOR_LOOP_START 0 5 :: esq_6_body ++
    D0 SECTOR_LOOP_END :: esq_6_post ++ [D0 END] /\
  plain esq_6_pre = true /\ plain esq_6_body = true /\
  plain esq_6_post = true /\
  count_type SECTOR_LOOP_START esq_6_desc = 1%nat /\
  count_type SECTOR_LOOP_END esq_6_desc = 1%nat /\
  count_type END esq_6_desc = 1%nat /\
  loops_nest false esq_6_desc = true /\
  loop_indices (D2 SECTOR_LOOP_START 0 5) = [0; 1; 2; 3; 4; 5] /\
  length (loop_indices (D2 SECTOR_LOOP_START 0 5)) = 6%nat /\
  crc_ids esq_6_desc = [1; 2] /\
  crc_ids esq_6_body = [1; 2] /\
  crc_regions_ok esq_6_body = true /\
  crc_region 1 esq_6_body = esq_6_id_region /\
  crc_region 2 esq_6_body = esq_6_data_region /\
  last esq_6_desc (D0 MFM) = D0 END.
Proof. repeat split; reflexivity. Qed.

(** C8: in [esq_6_desc] every [RAW] instruction carries 0x5224 or 0x4489,
    no [MFM] instruction (nor any other) carries one of these two values,
    both values occur, and no instruction that places supplied bytes is a
    [RAW] one. *)
Theorem esq_6_desc_sync_only_raw :
  Forall (fun e => type e = RAW -> is_sync_value (p1 e) = true) esq_6_desc /\
  Forall (fun e => type e = MFM -> is_sync_value (p1 e) = false) esq_6_desc /\
  Forall (fun e => is_sync_value (p1 e) = true -> type e = RAW) esq_6_desc /\
  Forall (fun e => carries_data e = true -> type e <> RAW) esq_6_desc /\
  In (D2 RAW 0x5224 3) esq_6_desc /\ In (D2 RAW 0x4489 3) esq_6_desc.
Proof.
  repeat split;
    try (repeat constructor; simpl; intros; solve [reflexivity | discriminate]);
    simpl; tauto.
Qed.

(* ------------------------------------------------------------------ *)
(** * The geometry probe and identify *)

Lemma find_size_cases (io : random_read) :
  find_size io =
    if length_succeeds io && (container_length io =? 450560)
    then (80, 1, 6) else (0, 0, 0).
Proof.
  unfold find_size, length_succeeds, container_length.
  destruct (rr_length io) as [err sz]; simpl.
  destruct (negb (ec_bool err)); simpl; [|reflexivity].
  change (5632 * 80) with 450560.
  destruct (sz =? 450560); reflexivity.
Qed.

(** C1: when the length query succeeds, [find_size] gives (80, 1, 6)
    exactly when the length is 80 * 1 * 5632 = 450560, and (0, 0, 0) for
    every other length; when the query fails it gives (0, 0, 0); it never
    gives anything else. *)
Theorem find_size_recognition (io : random_read) :
  80 * 1 * 5632 = 450560 /\
  (length_succeeds io = true ->
     (find_size io = (80, 1, 6) <-> container_length io = 450560)) /\
  (length_succeeds io = true -> container_length io <> 450560 ->
     find_size io = (0, 0, 0)) /\
  (length_succeeds io = false -> find_size io = (0, 0, 0)) /\
  (find_size io = (80, 1, 6) \/ find_size io = (0, 0, 0)).
Proof.
  rewrite find_size_cases.
  split; [reflexivity|].
  destruct (length_succeeds io); simpl;
    destruct (Z.eqb_spec (container_length io) 450560) as [E|E];
    repeat split; intros; try congruence; auto.
Qed.

(** C10: [identify] gives 50 exactly when the probe recognizes the
    container, that is when the length query succeeds with 450560, and 0
    otherwise. *)
Theorem identify_score (io : random_read) :
  (identify io = 50 <-> fst (fst (find_size io)) <> 0) /\
  (identify io = 50 <->
     length_succeeds io = true /\ container_length io = 450560) /\
  (identify io = 0 <->
     ~ (length_succeeds io = true /\ container_length io = 450560)) /\
  (identify io = 50 \/ identify io = 0).
Proof.
  unfold identify. rewrite find_size_cases.
  destruct (length_succeeds io); simpl;
    destruct (Z.eqb_spec (container_length io) 450560) as [E|E]; simpl;
    repeat split; intros; try congruence; try tauto; try lia; auto;
    try (intros [? ?]; congruence).
Qed.

(* ------------------------------------------------------------------ *)
(** * Loops *)

Lemma in_zrange (lo hi x : Z) : In x (zrange lo hi) <-> lo <= x < hi.
Proof.
  unfold zrange. rewrite in_map_iff. split.
  - intros [k [<- Hk]]. apply in_seq in Hk. lia.
  - intros H. exists (Z.to_nat (x - lo)). split; [lia|].
    apply in_seq. lia.
Qed.

Lemma length_zrange (lo hi : Z) :
  length (zrange lo hi) = Z.to_nat (hi - lo).
Proof. unfold zrange. now rewrite length_map, length_seq. Qed.

Lemma zrange_empty (lo hi : Z) : hi <= lo -> zrange lo hi = [].
Proof.
  intros H. unfold zrange. replace (Z.to_nat (hi - lo)) with 0%nat by lia.
  reflexivity.
Qed.

Lemma zrange_cons (lo hi : Z) :
  lo < hi -> zrange lo hi = lo :: zrange (lo + 1) hi.
Proof.
  intros H. unfold zrange.
  replace (Z.to_nat (hi - lo)) with (S (Z.to_nat (hi - (lo + 1)))) by lia.
  simpl. f_equal; [lia|].
  rewrite <- seq_shift, map_map. apply map_ext. intros; lia.
Qed.

Lemma bind_assoc {S A B C} (m : M S A) (k : A -> M S B) (k' : B -> M S C)
    (s : S) :
  bind (bind m k) k' s = bind m (fun a => bind (k a) k') s.
Proof. unfold bind. destruct (m s) as [[a| |] s']; reflexivity. Qed.

Lemma for_each_app {S X} (l1 l2 : list X) (body : X -> M S unit) (s : S) :
  for_each (l1 ++ l2) body s = (for_each l1 body ;; for_each l2 body) s.
Proof.
  revert s. induction l1 as [|x l1 IH]; intros s; simpl.
  - reflexivity.
  - rewrite bind_assoc. unfold bind.
    destruct (body x s) as [[[]| |] s']; auto.
Qed.

Lemma for_each_ext {S X} (l : list X) (f g : X -> M S unit) :
  (forall x s, In x l -> f x s = g x s) ->
  forall s, for_each l f s = for_each l g s.
Proof.
  induction l as [|x l IH]; intros H s; simpl; [reflexivity|].
  unfold bind. rewrite (H x s) by (left; reflexivity).
  destruct (g x s) as [[[]| |] s']; auto.
  apply IH. intros; apply H; right; assumption.
Qed.

(** Nested loops go through the pairs of indices in lexicographic order. *)
Lemma for_each_nested {S X Y} (l : list X) (inner : X -> list Y)
    (body : X -> Y -> M S unit) (s : S) :
  for_each l (fun x => for_each (inner x) (body x)) s =
  for_each (flat_map (fun x => map (pair x) (inner x)) l)
    (fun p => body (fst p) (snd p)) s.
Proof.
  revert s. induction l as [|x l IH]; intros s; simpl; [reflexivity|].
  rewrite for_each_app. unfold bind.
  assert (E : forall s0, for_each (inner x) (body x) s0 =
                         for_each (map (pair x) (inner x))
                           (fun p => body (fst p) (snd p)) s0).
  { generalize (inner x). intros ys. induction ys as [|y ys IHy]; intros s0;
      simpl; [reflexivity|].
    unfold bind. destruct (body x y s0) as [[[]| |] s']; auto. }
  rewrite E.
  destruct (for_each (map (pair x) (inner x)) _ s) as [[[]| |] s']; auto.
Qed.

(** A loop whose body always falls through falls through. *)
Lemma for_each_next {S X} (l : list X) (body : X -> M S unit) :
  (forall x s, fst (body x s) = Next tt) ->
  forall s, fst (for_each l body s) = Next tt.
Proof.
  intros H. induction l as [|x l IH]; intros s; simpl; [reflexivity|].
  unfold bind. specialize (H x s).
  destruct (body x s) as [[[]| |] s']; simpl in H; try discriminate.
  apply IH.
Qed.

(** A property of the state that every turn keeps holds after the loop,
    however it is left. *)
Lemma for_each_inv {S X} (P : S -> Prop) (l : list X)
    (body : X -> M S unit) :
  (forall x s, P s -> P (snd (body x s))) ->
  forall s, P s -> P (snd (for_each l body s)).
Proof.
  intros H. induction l as [|x l IH]; intros s Hs; simpl; [assumption|].
  unfold bind. specialize (H x s Hs).
  destruct (body x s) as [[[]| |] s']; simpl in *; auto.
Qed.

(* ------------------------------------------------------------------ *)
(** * load *)

Section LoadFacts.
Context {F : floppy_image_format_t}.

Lemma load_track_next (io : random_read) (sectors : list sector_ptr)
    (head_count sector_count track : Z) (s : load_state) :
  fst (for_ 0 head_count (fun head =>
         read_at io ((track * head_count + head) * (5 * 1024 + 512))
           (5 * 1024 + 512) ;;
         s <- get ;;
         on_image (generate_track esq_6_desc track head
                     (map (deref (sectdata s)) sectors)
                     sector_count 109376)) s) = Next tt.
Proof. apply for_each_next. intros; reflexivity. Qed.

(** [load] leaves through its [return true], whatever it is given. *)
Lemma load_result (io : random_read) (buf : list byte) (img : floppy_image) :
  result (load io buf img) = Some true.
Proof.
  unfold load, load_body, result.
  destruct (find_size io) as [[tc hc] sc].
  unfold bind at 1.
  match goal with |- context [for_ 0 tc ?b ?s] =>
    pose proof (for_each_next (zrange 0 tc) b
                  (fun t s' => load_track_next io _ hc sc t s') s) as E;
    change (for_each (zrange 0 tc) b s) with (for_ 0 tc b s) in E;
    destruct (for_ 0 tc b s) as [[[]| |] s']; simpl in E; try discriminate
  end.
  reflexivity.
Qed.

(** With the zero geometry nothing is read and the image only has its
    variant set. *)
Lemma load_unrecognized (io : random_read) (buf : list byte)
    (img : floppy_image) :
  find_size io = (0, 0, 0) ->
  snd (load io buf img) =
    {| sectdata := buf; image := set_variant DSDD img; reads := [] |}.
Proof.
  intros E. unfold load, load_body. rewrite E. reflexivity.
Qed.

End LoadFacts.

Lemma load_sectors_6 :
  load_sectors 6 =
    [ {| sp_ofs := 0; sp_size := 1024; sp_sector_id := 0 |};
      {| sp_ofs := 1024; sp_size := 1024; sp_sector_id := 1 |};
      {| sp_ofs := 2048; sp_size := 1024; sp_sector_id := 2 |};
      {| sp_ofs := 3072; sp_size := 1024; sp_sector_id := 3 |};
      {| sp_ofs := 4096; sp_size := 1024; sp_sector_id := 4 |};
      {| sp_ofs := 5120; sp_size := 512; sp_sector_id := 5 |} ].
Proof. reflexivity. Qed.

(** The descriptors [load] builds carry the sizes of the policy and the
    ids 0..5, whatever the buffer holds. *)
Lemma deref_load_sectors (sd : list byte) :
  map size (map (deref sd) (load_sectors 6)) =
    [1024; 1024; 1024; 1024; 1024; 512] /\
  map sector_id (map (deref sd) (load_sectors 6)) = [0; 1; 2; 3; 4; 5].
Proof. rewrite load_sectors_6. split; reflexivity. Qed.

(** A sector cut out of the buffer after a full read of the record at
    [off] is the sector cut out of the container. *)
Lemma slice_after_read (c rest : list byte) (off n ofs sz : nat) :
  (ofs + sz <= n)%nat -> (off + n <= length c)%nat ->
  firstn sz (skipn ofs (firstn n (skipn off c) ++ rest)) =
  firstn sz (skipn (off + ofs) c).
Proof.
  intros H1 H2.
  assert (L : length (firstn n (skipn off c)) = n).
  { rewrite length_firstn, length_skipn. lia. }
  rewrite skipn_app, L.
  replace (ofs - n)%nat with 0%nat by lia.
  rewrite firstn_app, length_skipn, L.
  replace (sz - (n - ofs))%nat with 0%nat by lia.
  simpl. rewrite app_nil_r.
  rewrite skipn_firstn_comm, firstn_firstn, skipn_skipn.
  f_equal; [lia|]. f_equal. lia.
Qed.

(** The buffer after the read of a whole track record. *)
Lemma deref_after_read (c rest : list byte) (off : Z) :
  0 <= off -> off + 5632 <= Z.of_nat (length c) ->
  map (deref (firstn (Z.to_nat 5632) (skipn (Z.to_nat off) c) ++ rest))
    (load_sectors 6)
  = record_sectors c off.
Proof.
  intros H0 H1. rewrite load_sectors_6. unfold record_sectors.
  change (zrange 0 6) with [0; 1; 2; 3; 4; 5].
  cbn [map]. unfold deref, slice. cbn [sp_ofs sp_size sp_sector_id].
  assert (S : forall ofs sz, 0 <= ofs -> 0 <= sz -> ofs + sz <= 5632 ->
            firstn (Z.to_nat sz)
              (skipn (Z.to_nat ofs)
                 (firstn (Z.to_nat 5632) (skipn (Z.to_nat off) c) ++ rest)) =
            firstn (Z.to_nat sz) (skipn (Z.to_nat (off + ofs)) c)).
  { intros ofs sz Ho Hs Hb.
    rewrite (slice_after_read c rest (Z.to_nat off) (Z.to_nat 5632)
               (Z.to_nat ofs) (Z.to_nat sz)) by lia.
    f_equal. f_equal. lia. }
  change (expected_size 0) with 1024. change (expected_size 1) with 1024.
  change (expected_size 2) with 1024. change (expected_size 3) with 1024.
  change (expected_size 4) with 1024. change (expected_size 5) with 512.
  rewrite (S 0 1024), (S 1024 1024), (S 2048 1024), (S 3072 1024),
    (S 4096 1024), (S 5120 512) by lia.
  reflexivity.
Qed.

Section LoadMemory.
Context {F : floppy_image_format_t}.

(** One track of a container held in memory that has the whole record. *)
Lemma load_track_mem (c : list byte) (t : Z) (s : load_state) :
  0 <= t -> (t + 1) * 5632 <= Z.of_nat (length c) ->
  load_track (mem_reader c) 1 6 t s =
    (Next tt,
     {| sectdata := slice c ((t * 1 + 0) * 5632) 5632 ++
                    skipn (Z.to_nat 5632) (sectdata s);
        image := generate_track esq_6_desc t 0
                   (record_sectors c ((t * 1 + 0) * 5632)) 6 109376 (image s);
        reads := reads s ++ [((t * 1 + 0) * 5632, 5632)] |}).
Proof.
  intros Ht0 Ht1. unfold load_track.
  change (for_ 0 1) with (fun b : Z -> M load_state unit => for_each [0] b).
  cbv beta. cbn [for_each].
  unfold bind, read_at, get, on_image, modify, ret.
  cbn [sectdata image reads fst snd].
  change (5 * 1024 + 512) with 5632.
  unfold mem_reader. cbn [rr_read_at].
  rewrite firstn_firstn, Nat.min_id.
  rewrite deref_after_read by lia.
  assert (L : length (firstn (Z.to_nat 5632)
                        (skipn (Z.to_nat ((t * 1 + 0) * 5632)) c)) =
              Z.to_nat 5632).
  { rewrite length_firstn, length_skipn. lia. }
  rewrite L. reflexivity.
Qed.

Lemma load_tracks_mem (c : list byte) (l : list Z) :
  Forall (fun t => 0 <= t /\ (t + 1) * 5632 <= Z.of_nat (length c)) l ->
  forall s,
    fst (for_each l (load_track (mem_reader c) 1 6) s) = Next tt /\
    image (snd (for_each l (load_track (mem_reader c) 1 6) s)) =
      tracks_generated c l (image s) /\
    reads (snd (for_each l (load_track (mem_reader c) 1 6) s)) =
      reads s ++ map (fun t => ((t * 1 + 0) * 5632, 5632)) l.
Proof.
  induction 1 as [|t l [Ht0 Ht1] Hl IH]; intros s.
  - simpl. rewrite app_nil_r. auto.
  - cbn [for_each]. unfold bind.
    rewrite (load_track_mem c t s Ht0 Ht1).
    match goal with |- context [for_each l _ ?s0] =>
      destruct (IH s0) as (E1 & E2 & E3)
    end.
    rewrite E1, E2, E3. cbn [image reads map tracks_generated fold_left].
    rewrite <- app_assoc. auto.
Qed.

End LoadMemory.
Section LoadTheorems.
Context {F : floppy_image_format_t}.

Lemma load_body_tracks (io : random_read) (s : load_state) :
  load_body io s =
    (let '(track_count, head_count, sector_count) := find_size io in
     for_each (zrange 0 track_count) (load_track io head_count sector_count) ;;
     on_image (set_variant DSDD) ;;
     return_ true) s.
Proof. unfold load_body. destruct (find_size io) as [[tc hc] sc]. reflexivity. Qed.

Lemma find_size_mem (c : list byte) :
  Z.of_nat (length c) = 450560 -> find_size (mem_reader c) = (80, 1, 6).
Proof.
  intros L. rewrite find_size_cases.
  unfold length_succeeds, container_length, mem_reader, ec_bool.
  cbn [rr_length fst snd ec_value]. rewrite L. reflexivity.
Qed.

(** A recognized container held in memory: one read of 5632 bytes per
    track, at the track's offset, and one track generated from the six
    sectors cut out of the record. *)
Lemma load_mem_recognized (c buf : list byte) (img : floppy_image) :
  Z.of_nat (length c) = 450560 ->
  reads (snd (load (mem_reader c) buf img)) =
    map (fun t => ((t * 1 + 0) * 5632, 5632)) (zrange 0 80) /\
  image (snd (load (mem_reader c) buf img)) =
    set_variant DSDD (tracks_generated c (zrange 0 80) img).
Proof.
  intros L. unfold load. rewrite load_body_tracks.
  rewrite (find_size_mem c L).
  assert (Hl : Forall (fun t => 0 <= t /\ (t + 1) * 5632 <= Z.of_nat (length c))
                 (zrange 0 80)).
  { apply Forall_forall. intros t Ht. apply in_zrange in Ht. lia. }
  pose proof (load_tracks_mem c _ Hl
                {| sectdata := buf; image := img; reads := [] |})
    as (E1 & E2 & E3).
  unfold bind, on_image, modify, return_.
  destruct (for_each (zrange 0 80) (load_track (mem_reader c) 1 6) _)
    as [[[]| |] s']; cbn [fst snd image reads] in *; try discriminate.
  rewrite E2, E3. auto.
Qed.

End LoadTheorems.
(* ------------------------------------------------------------------ *)
(** * save *)

Lemma flat_map_flat_map {A B C} (f : B -> list C) (g : A -> list B)
    (l : list A) :
  flat_map f (flat_map g l) = flat_map (fun x => flat_map f (g x)) l.
Proof.
  induction l as [|x l IH]; simpl; [reflexivity|].
  now rewrite flat_map_app, IH.
Qed.

Lemma flat_map_map {A B C} (f : B -> list C) (g : A -> B) (l : list A) :
  flat_map f (map g l) = flat_map (fun x => f (g x)) l.
Proof. induction l as [|x l IH]; simpl; [reflexivity|]. now rewrite IH. Qed.

Lemma length_flat_map_const {A B} (f : A -> list B) (n : nat) (l : list A) :
  (forall x, length (f x) = n) -> length (flat_map f l) = (length l * n)%nat.
Proof.
  intros H. induction l as [|x l IH]; simpl; [reflexivity|].
  rewrite length_app, H, IH. reflexivity.
Qed.

Section SaveFacts.
Context {F : floppy_image_format_t}.
Variable img : floppy_image.

Lemma in_save_coords (tc hc sc t h s : Z) :
  In (t, h, s) (save_coords tc hc sc) <->
  0 <= t < tc /\ 0 <= h < hc /\ 0 <= s < sc.
Proof.
  unfold save_coords. rewrite in_flat_map. split.
  - intros [t' [Ht H]]. apply in_flat_map in H. destruct H as [h' [Hh H]].
    apply in_map_iff in H. destruct H as [s' [E Hs]]. inversion E; subst.
    apply in_zrange in Ht, Hh, Hs. lia.
  - intros (Ht & Hh & Hs). exists t. split; [apply in_zrange; lia|].
    apply in_flat_map. exists h. split; [apply in_zrange; lia|].
    apply in_map_iff. exists s. split; [reflexivity|apply in_zrange; lia].
Qed.

Lemma length_save_coords (tc hc sc : Z) :
  0 <= tc -> 0 <= hc -> 0 <= sc ->
  Z.of_nat (length (save_coords tc hc sc)) = tc * hc * sc.
Proof.
  intros Ht Hh Hs. unfold save_coords.
  rewrite (length_flat_map_const _ (Z.to_nat (hc * sc))).
  - rewrite length_zrange. nia.
  - intros t. rewrite (length_flat_map_const _ (Z.to_nat sc)).
    + rewrite length_zrange. nia.
    + intros h. rewrite length_map, length_zrange. lia.
Qed.

(** The three loops of [save] go through [save_coords] for the forced
    geometry. *)
Lemma save_body_flat (tc hc sc : Z) (st : save_state) :
  get_geometry_mfm_pc img 2000 = (tc, hc, sc) ->
  save_body img st =
    (for_each (save_coords 80 (forced_heads hc) 6) (save_step img) ;;
     return_ true) st.
Proof.
  intros Hp. unfold save_body, save_geometry. rewrite Hp.
  replace (if negb (tc =? 80) then 80 else tc) with 80
    by (destruct (Z.eqb_spec tc 80); simpl; congruence).
  replace (if negb (sc =? 6) then 6 else sc) with 6
    by (destruct (Z.eqb_spec sc 6); simpl; congruence).
  fold (forced_heads hc).
  assert (E : for_ 0 80 (fun track =>
                for_ 0 (forced_heads hc) (fun head =>
                  for_ 0 6 (fun sector =>
                    save_sector
                      (extract_sectors_from_bitstream_mfm_pc
                         (generate_bitstream_from_track track head 2000 img))
                      track sector))) st =
              for_each (save_coords 80 (forced_heads hc) 6) (save_step img) st).
  { unfold for_.
    rewrite (for_each_nested (zrange 0 80)
               (fun _ => zrange 0 (forced_heads hc))
               (fun track head =>
                  for_each (zrange 0 6)
                    (fun sector =>
                       save_sector
                         (extract_sectors_from_bitstream_mfm_pc
                            (generate_bitstream_from_track track head 2000
                               img))
                         track sector))).
    rewrite (for_each_nested _ (fun _ => zrange 0 6)
               (fun p sector =>
                  save_sector
                    (extract_sectors_from_bitstream_mfm_pc
                       (generate_bitstream_from_track (fst p) (snd p) 2000
                          img))
                    (fst p) sector)).
    rewrite flat_map_flat_map.
    unfold save_coords.
    match goal with |- for_each ?l1 ?f st = for_each ?l2 ?g st =>
      replace l1 with l2
    end.
    - apply for_each_ext. intros [[t h] s] st' _. reflexivity.
    - apply flat_map_ext. intros t. rewrite flat_map_map. reflexivity. }
  unfold bind. rewrite E. reflexivity.
Qed.

End SaveFacts.

Section SaveRun.
Context {F : floppy_image_format_t}.
Variable img : floppy_image.

Lemma size_ok_spec (c : Z * Z * Z) :
  size_ok img c = true <->
  exists v, nth_error (sectors_at img (fst (fst c)) (snd (fst c)))
              (Z.to_nat (snd c)) = Some v /\
            vsize v = expected_size (snd c).
Proof.
  destruct c as [[t h] s]. unfold size_ok, extracted_size. simpl.
  destruct (nth_error (sectors_at img t h) (Z.to_nat s)) as [v|]; simpl.
  - rewrite Z.eqb_eq. split.
    + intros E. exists v. auto.
    + intros [v' [E1 E2]]. congruence.
  - split; [discriminate|]. intros [v [E _]]. discriminate.
Qed.

(** A turn on a sector whose size fits: one write at the running offset,
    which then moves behind it. *)
Lemma save_step_ok (c : Z * Z * Z) (st : save_state) :
  size_ok img c = true ->
  save_step img c st =
    (Next tt,
     {| file_offset := (file_offset st + expected_size (snd c)) mod 2 ^ 64;
        writes := writes st ++ writes_from img (file_offset st) [c];
        errors := errors st |}).
Proof.
  intros H. apply size_ok_spec in H. destruct H as [v [E1 E2]].
  destruct c as [[t h] s]. simpl in *.
  unfold save_sector, vector_at. fold (sectors_at img t h). rewrite E1.
  unfold bind at 1. unfold ret.
  fold (expected_size s). rewrite E2, Z.eqb_refl. simpl negb. cbv iota.
  unfold bind, write_at, advance, modify. simpl.
  rewrite (nth_error_nth _ _ _ E1).
  rewrite <- E2. unfold vsize. rewrite Nat2Z.id, firstn_all. reflexivity.
Qed.

(** A turn on a sector whose size does not fit: the error line, and
    [return false]. *)
Lemma save_step_bad (c : Z * Z * Z) (n : Z) (st : save_state) :
  extracted_size img c = Some n -> n <> expected_size (snd c) ->
  save_step img c st =
    (Return false,
     {| file_offset := file_offset st;
        writes := writes st;
        errors := errors st ++ [(fst (fst c), snd c, n)] |}).
Proof.
  destruct c as [[t h] s]. unfold extracted_size. simpl. intros E Hn.
  unfold save_sector, vector_at. fold (sectors_at img t h).
  destruct (nth_error (sectors_at img t h) (Z.to_nat s)) as [v|];
    [|discriminate].
  simpl in E. injection E as <-.
  unfold bind at 1. unfold ret. fold (expected_size s).
  apply Z.eqb_neq in Hn. rewrite Hn. reflexivity.
Qed.

(** A turn on a position the extracted vector does not have. *)
Lemma save_step_absent (c : Z * Z * Z) (st : save_state) :
  extracted_size img c = None -> save_step img c st = (OutOfBounds, st).
Proof.
  destruct c as [[t h] s]. unfold extracted_size. simpl. intros E.
  unfold save_sector, vector_at. fold (sectors_at img t h).
  destruct (nth_error (sectors_at img t h) (Z.to_nat s)); [discriminate|].
  reflexivity.
Qed.

Lemma writes_from_app (off : Z) (l1 l2 : list (Z * Z * Z)) :
  writes_from img off (l1 ++ l2) =
  writes_from img off l1 ++ writes_from img (offset_after off l1) l2.
Proof.
  revert off. induction l1 as [|[[t h] s] l1 IH]; intros off; simpl.
  - reflexivity.
  - now rewrite IH.
Qed.

(** The loop writes the sectors before the first whose size does not fit,
    and stops there. *)
Lemma save_steps_run (l : list (Z * Z * Z)) (st : save_state) :
  for_each l (save_step img) st =
    (save_outcome img l,
     {| file_offset := offset_after (file_offset st) (good_prefix img l);
        writes := writes st ++
                  writes_from img (file_offset st) (good_prefix img l);
        errors := errors st ++ save_errors img l |}).
Proof.
  revert st. induction l as [|c l IH]; intros st.
  - simpl. unfold ret, save_outcome, save_errors. simpl.
    rewrite !app_nil_r. destruct st; reflexivity.
  - cbn [for_each good_prefix]. unfold bind.
    unfold save_outcome, save_errors, first_bad. cbn [find].
    destruct (size_ok img c) eqn:Hc; cbn [negb].
    + rewrite (save_step_ok c st Hc). rewrite IH. cbn [file_offset writes errors].
      f_equal. f_equal.
      rewrite <- app_assoc. f_equal.
      destruct c as [[t h] s]. reflexivity.
    + unfold size_ok in Hc.
      destruct (extracted_size img c) as [n|] eqn:En.
      * apply Z.eqb_neq in Hc.
        rewrite (save_step_bad c n st En Hc). simpl. now rewrite app_nil_r.
      * rewrite (save_step_absent c st En). simpl. rewrite !app_nil_r.
        destruct st; reflexivity.
Qed.

End SaveRun.

Section SaveLists.
Context {F : floppy_image_format_t}.
Variable img : floppy_image.

Lemma good_prefix_ok (l : list (Z * Z * Z)) :
  Forall (fun c => size_ok img c = true) (good_prefix img l).
Proof.
  induction l as [|c l IH]; simpl; [constructor|].
  destruct (size_ok img c) eqn:E; constructor; assumption.
Qed.

Lemma good_prefix_all (l : list (Z * Z * Z)) :
  (forall c, In c l -> size_ok img c = true) ->
  good_prefix img l = l /\ first_bad img l = None.
Proof.
  unfold first_bad. induction l as [|c l IH]; intros H; simpl; [auto|].
  rewrite (H c) by (left; reflexivity). simpl.
  destruct IH as [E1 E2]; [intros; apply H; right; assumption|].
  rewrite E1. auto.
Qed.

Lemma first_bad_split (l : list (Z * Z * Z)) :
  (exists c, In c l /\ size_ok img c = false) ->
  exists c post,
    first_bad img l = Some c /\ size_ok img c = false /\
    l = good_prefix img l ++ c :: post.
Proof.
  unfold first_bad. induction l as [|x l IH]; intros [c [Hin Hc]];
    [destruct Hin|].
  simpl. destruct (size_ok img x) eqn:Ex; simpl.
  - destruct Hin as [->|Hin]; [congruence|].
    destruct IH as (c' & post & E1 & E2 & E3); [eauto|].
    exists c', post. repeat split; auto. congruence.
  - exists x, l. auto.
Qed.

Lemma length_writes_from (off : Z) (l : list (Z * Z * Z)) :
  length (writes_from img off l) = length l.
Proof.
  revert off. induction l as [|[[t h] s] l IH]; intros off; simpl; auto.
Qed.

Lemma length_good_prefix (l : list (Z * Z * Z)) :
  (length (good_prefix img l) <= length l)%nat.
Proof.
  induction l as [|c l IH]; simpl; [lia|].
  destruct (size_ok img c); simpl; lia.
Qed.

Lemma writes_from_laid_out (l : list (Z * Z * Z)) (off : Z) :
  Forall (fun c => size_ok img c = true) l ->
  0 <= off -> off + 1024 * Z.of_nat (length l) < 2 ^ 64 ->
  laid_out off (writes_from img off l).
Proof.
  intros H. revert off. induction H as [|c l Hc Hl IH]; intros off H0 H1;
    [exact I|].
  apply size_ok_spec in Hc. destruct Hc as [v [E1 E2]].
  destruct c as [[t h] s]. cbn [fst snd] in E1, E2.
  rewrite length_cons, Nat2Z.inj_succ in H1.
  cbn [writes_from laid_out fst snd].
  rewrite (nth_error_nth _ _ _ E1).
  assert (Hs : expected_size s = 1024 \/ expected_size s = 512).
  { unfold expected_size. destruct (s <? 5); auto. }
  assert (P : 2 ^ 64 = 18446744073709551616) by reflexivity.
  rewrite Z.mod_small by lia.
  split; [reflexivity|]. rewrite E2. split; [exact Hs|].
  apply IH; lia.
Qed.

Lemma laid_out_nth (ws : list (Z * list byte)) (off : Z) (k : nat) :
  laid_out off ws -> (k < length ws)%nat ->
  fst (nth k ws (0, [])) = off + written (firstn k ws) /\
  (vsize (snd (nth k ws (0, []))) = 1024 \/
   vsize (snd (nth k ws (0, []))) = 512).
Proof.
  revert off k. induction ws as [|w ws IH]; intros off k H Hk;
    [simpl in Hk; lia|].
  destruct H as (E & Hs & H). destruct k as [|k]; simpl.
  - split; [lia|exact Hs].
  - destruct (IH _ k H) as [E1 E2]; [simpl in Hk; lia|].
    split; [|exact E2]. rewrite E1. unfold written at 2. simpl.
    fold (written (firstn k ws)). lia.
Qed.

Lemma written_nonneg (ws : list (Z * list byte)) : 0 <= written ws.
Proof.
  induction ws as [|w ws IH]; unfold written; simpl; [lia|].
  fold (written ws). unfold vsize. lia.
Qed.

Lemma laid_out_ascending (ws : list (Z * list byte)) (off : Z) (j k : nat) :
  laid_out off ws -> (j < k < length ws)%nat ->
  fst (nth j ws (0, [])) < fst (nth k ws (0, [])).
Proof.
  revert off j k. induction ws as [|w ws IH]; intros off j k H Hjk;
    [simpl in Hjk; lia|].
  destruct H as (E & Hs & H). destruct k as [|k]; [lia|].
  destruct j as [|j]; simpl.
  - destruct (laid_out_nth ws _ k H) as [E1 _]; [simpl in Hjk; lia|].
    rewrite E1, E. pose proof (written_nonneg (firstn k ws)). lia.
  - apply (IH _ j k H). simpl in Hjk. lia.
Qed.

End SaveLists.

Section SaveOffsets.
Context {F : floppy_image_format_t}.
Variable img : floppy_image.

Lemma offsets_record (t h off : Z) :
  0 <= off -> off + 5632 < 2 ^ 64 ->
  map fst (writes_from img off (record_coords t h)) =
    map (fun s => off + 1024 * s) (zrange 0 6) /\
  offset_after off (record_coords t h) = off + 5632.
Proof.
  intros H0 H1. unfold record_coords.
  change (zrange 0 6) with [0; 1; 2; 3; 4; 5].
  unfold offset_after. cbn [map writes_from fold_left fst snd].
  change (expected_size 0) with 1024. change (expected_size 1) with 1024.
  change (expected_size 2) with 1024. change (expected_size 3) with 1024.
  change (expected_size 4) with 1024. change (expected_size 5) with 512.
  assert (P : 2 ^ 64 = 18446744073709551616) by reflexivity.
  repeat rewrite (Z.mod_small _ (2 ^ 64)) by lia.
  split; [|lia].
  repeat (apply f_equal2; [lia|]). reflexivity.
Qed.

Lemma offset_after_app (off : Z) (l1 l2 : list (Z * Z * Z)) :
  offset_after off (l1 ++ l2) = offset_after (offset_after off l1) l2.
Proof. unfold offset_after. apply fold_left_app. Qed.

Lemma offsets_heads (t base : Z) (n : nat) :
  forall lo hi,
    Z.to_nat (hi - lo) = n -> 0 <= base + lo * 5632 ->
    base + hi * 5632 < 2 ^ 64 ->
    map fst (writes_from img (base + lo * 5632)
               (flat_map (record_coords t) (zrange lo hi))) =
      map (fun c => base + snd (fst c) * 5632 + 1024 * snd c)
        (flat_map (record_coords t) (zrange lo hi)) /\
    offset_after (base + lo * 5632)
      (flat_map (record_coords t) (zrange lo hi)) =
      base + Z.max lo hi * 5632.
Proof.
  induction n as [|n IH]; intros lo hi Hn H0 H1.
  - rewrite zrange_empty by lia. cbn [flat_map writes_from map].
    split; [reflexivity|]. unfold offset_after. cbn [fold_left]. lia.
  - rewrite zrange_cons by lia. cbn [flat_map].
    rewrite writes_from_app, map_app, map_app, offset_after_app.
    destruct (offsets_record t lo (base + lo * 5632)) as [E1 E2]; [lia..|].
    rewrite E1, E2.
    replace (base + lo * 5632 + 5632) with (base + (lo + 1) * 5632) by lia.
    destruct (IH (lo + 1) hi) as [E3 E4]; [lia..|].
    rewrite E3, E4. split; [|lia].
    reflexivity.
Qed.

Lemma save_coords_records (tc hc : Z) :
  save_coords tc hc 6 =
    flat_map (fun t => flat_map (record_coords t) (zrange 0 hc))
      (zrange 0 tc).
Proof. reflexivity. Qed.

Lemma offsets_tracks (hc : Z) (n : nat) :
  0 <= hc ->
  forall lo hi,
    Z.to_nat (hi - lo) = n -> 0 <= lo -> hi * hc * 5632 < 2 ^ 64 ->
    map fst (writes_from img (lo * hc * 5632)
               (flat_map (fun t => flat_map (record_coords t) (zrange 0 hc))
                  (zrange lo hi))) =
      map (sector_offset hc)
        (flat_map (fun t => flat_map (record_coords t) (zrange 0 hc))
           (zrange lo hi)).
Proof.
  intros Hh. induction n as [|n IH]; intros lo hi Hn H0 H1.
  - rewrite (zrange_empty lo hi) by lia. reflexivity.
  - rewrite (zrange_cons lo hi) by lia. cbn [flat_map].
    rewrite writes_from_app, map_app, map_app.
    assert (Hm : (lo + 1) * hc <= hi * hc)
      by (apply Z.mul_le_mono_nonneg_r; lia).
    assert (Hp : 0 <= lo * hc) by (apply Z.mul_nonneg_nonneg; lia).
    assert (P : 2 ^ 64 = 18446744073709551616) by reflexivity.
    destruct (offsets_heads lo (lo * hc * 5632) (Z.to_nat hc) 0 hc)
      as [E1 E2]; [lia..|].
    replace (lo * hc * 5632 + 0 * 5632) with (lo * hc * 5632) in E1, E2
      by lia.
    rewrite E1, E2.
    replace (lo * hc * 5632 + Z.max 0 hc * 5632) with ((lo + 1) * hc * 5632)
      by lia.
    rewrite (IH (lo + 1) hi) by lia.
    f_equal. apply map_ext_in. intros [[t h] s] Hin.
    apply in_flat_map in Hin. destruct Hin as [h' [_ Hin]].
    unfold record_coords in Hin. apply in_map_iff in Hin.
    destruct Hin as [s' [E _]]. inversion E; subst.
    unfold sector_offset. cbn [fst snd]. lia.
Qed.

(** Without overflow of the offset, the sectors at [save_coords] are
    written where the flat layout puts them. *)
Lemma offsets_save_coords (hc : Z) :
  0 <= hc -> 80 * hc * 5632 < 2 ^ 64 ->
  map fst (writes_from img 0 (save_coords 80 hc 6)) =
  map (sector_offset hc) (save_coords 80 hc 6).
Proof.
  intros H0 H1. rewrite save_coords_records.
  exact (offsets_tracks hc 80 H0 0 80 eq_refl (Z.le_refl 0) H1).
Qed.

End SaveOffsets.

(* ------------------------------------------------------------------ *)
(** * The claims about load *)

(** C9: [load] returns true for every input, so two loads cannot be told
    apart by the value returned; for a container the probe does not
    recognize it reads nothing, generates no track and still sets the
    variant to DSDD. *)
Theorem load_reports_success {F : floppy_image_format_t}
    (io io' : random_read) (buf buf' : list byte) (img img' : floppy_image) :
  result (load io buf img) = Some true /\
  result (load io buf img) = result (load io' buf' img') /\
  (length_succeeds io && (container_length io =? 450560) = false ->
   find_size io = (0, 0, 0) /\
   reads (snd (load io buf img)) = [] /\
   image (snd (load io buf img)) = set_variant DSDD img).
Proof.
  split; [apply load_result|].
  split; [now rewrite !load_result|].
  intros H. pose proof (find_size_cases io) as E. rewrite H in E.
  rewrite (load_unrecognized io buf img E). auto.
Qed.

(** C3, as the spec has it, fails: a container that reports the recognized
    length and delivers no byte leaves every sector of every track record
    short of its size, and [load] returns true. *)
Lemma load_accepts_short_records :
  find_size silent_reader = (80, 1, 6) /\
  (forall track i, 0 <= track < 80 -> 0 <= i < 6 ->
     recovered_size (actual silent_reader ((track * 1 + 0) * 5632) 5632) i
     <> expected_size i) /\
  result (load (F := unprobed_medium) silent_reader [] []) = Some true.
Proof.
  split; [reflexivity|]. split; [|apply load_result].
  intros track i _ Hi. unfold actual, silent_reader. cbn [rr_read_at].
  rewrite firstn_nil. cbn [length Z.of_nat].
  unfold recovered_size, expected_size. destruct (i <? 5); lia.
Qed.

(** What one track adds to a recording image. *)
Lemma load_track_recording (probe : Z * Z * Z)
    (on_track : Z -> list (list byte)) (io : random_read) (t : Z)
    (s : load_state (F := recording probe on_track)) :
  exists sd,
    image (snd (load_track (F := recording probe on_track) io 1 6 t s)) =
    image s ++
    [GenerateTrack esq_6_desc t 0 (map (deref sd) (load_sectors 6)) 6 109376].
Proof.
  unfold load_track, for_. change (zrange 0 1) with [0]. cbn [for_each].
  unfold bind, read_at, get, on_image, modify, ret.
  cbn [sectdata image reads fst snd generate_track recording].
  eexists. reflexivity.
Qed.

(** C3, amended: [load] returns true for every input; it checks no size.
    Every call of [generate_track] it makes is handed six sectors whose
    sizes are 1024 for the positions 0-4 and 512 for position 5, with the
    ids 0..5, whatever the container delivered. *)
Theorem load_checks_no_size {F : floppy_image_format_t}
    (img : floppy_image) (probe : Z * Z * Z)
    (on_track : Z -> list (list byte)) (io : random_read)
    (buf : list byte) :
  result (load io buf img) = Some true /\
  Forall policy_sized (image (snd (load (F := recording probe on_track)
                                     io buf []))).
Proof.
  split; [apply load_result|].
  unfold load. rewrite load_body_tracks.
  destruct (find_size_recognition io) as (_ & _ & _ & _ & [E|E]); rewrite E.
  - pose proof (for_each_inv (S := load_state (F := recording probe on_track))
                  (fun s => Forall policy_sized (image s)) (zrange 0 80)
                  (load_track io 1 6)) as HI.
    pose proof (for_each_next (zrange 0 80)
                  (load_track (F := recording probe on_track) io 1 6)
                  (fun t s' => load_track_next io _ 1 6 t s')) as HN.
    unfold bind, on_image, modify, return_.
    match goal with |- context [for_each ?l ?b ?s0] =>
      specialize (HN s0); specialize (fun H => HI H s0);
      destruct (for_each l b s0) as [[[]| |] s']
    end; cbn [fst snd image] in *; try discriminate.
    apply Forall_app. split; [|repeat constructor].
    apply HI; [|constructor].
    intros t s0 Hs0.
    destruct (load_track_recording probe on_track io t s0) as [sd Esd].
    rewrite Esd. apply Forall_app. split; [exact Hs0|].
    constructor; [|constructor].
    destruct (deref_load_sectors sd) as [E1 E2]. cbn [policy_sized]. auto.
  - unfold bind, on_image, modify, return_. cbn.
    repeat constructor.
Qed.
(* ------------------------------------------------------------------ *)
(** * The claims about save *)

Section SaveTheorems.
Context {F : floppy_image_format_t}.

Lemma save_run (img : floppy_image) (tc hc sc : Z) :
  get_geometry_mfm_pc img 2000 = (tc, hc, sc) ->
  let cs := save_coords 80 (forced_heads hc) 6 in
  result (save img) =
    match save_outcome img cs with
    | Next _ => Some true
    | Return b => Some b
    | OutOfBounds => None
    end /\
  writes (snd (save img)) = writes_from img 0 (good_prefix img cs) /\
  errors (snd (save img)) = save_errors img cs.
Proof.
  intros Hp cs. unfold save. rewrite (save_body_flat img tc hc sc _ Hp).
  unfold bind. rewrite save_steps_run. fold cs.
  destruct (save_outcome img cs) as [[]| |]; simpl; auto.
Qed.

Lemma extracted_in_range (img : floppy_image) (hc : Z) :
  (forall t h, 0 <= t < 80 -> 0 <= h < hc ->
     (6 <= length (sectors_at img t h))%nat) ->
  forall c, In c (save_coords 80 hc 6) -> extracted_size img c <> None.
Proof.
  intros Hv [[t h] s] Hin. apply in_save_coords in Hin.
  destruct Hin as (Ht & Hh & Hs). unfold extracted_size.
  specialize (Hv t h Ht Hh).
  destruct (nth_error (sectors_at img t h) (Z.to_nat s)) eqn:E;
    [discriminate|].
  apply nth_error_None in E. lia.
Qed.

End SaveTheorems.

(** X12: when the vector extracted for every track and head has its six
    positions, [save] returns true if every sector has the size of the
    policy, with no error line and one write per sector; and if some
    sector has another size, then for the first such one, at (t, h, s)
    with n bytes, [save] returns false, its one error line carries t, s
    and n, and the writes are exactly those of the sectors before (t, h, s):
    none for that sector, none for a later one. *)
Theorem save_size_mismatch {F : floppy_image_format_t} (img : floppy_image)
    (tc hc sc : Z)
    (Hp : get_geometry_mfm_pc img 2000 = (tc, hc, sc))
    (Hv : forall t h, 0 <= t < 80 -> 0 <= h < forced_heads hc ->
            (6 <= length (sectors_at img t h))%nat) :
  let cs := save_coords 80 (forced_heads hc) 6 in
  ((forall c, In c cs -> size_ok img c = true) ->
   result (save img) = Some true /\
   errors (snd (save img)) = [] /\
   writes (snd (save img)) = writes_from img 0 cs) /\
  ((exists c, In c cs /\ size_ok img c = false) ->
   exists pre t h s post n,
     cs = pre ++ (t, h, s) :: post /\
     (forall c, In c pre -> size_ok img c = true) /\
     extracted_size img (t, h, s) = Some n /\ n <> expected_size s /\
     result (save img) = Some false /\
     errors (snd (save img)) = [(t, s, n)] /\
     writes (snd (save img)) = writes_from img 0 pre /\
     length (writes (snd (save img))) = length pre).
Proof.
  intros cs. destruct (save_run img tc hc sc Hp) as (R & W & E).
  fold cs in R, W, E. split.
  - intros Hok. destruct (good_prefix_all img cs Hok) as [G B].
    unfold save_outcome, save_errors in *. rewrite B in *. rewrite G in W.
    auto.
  - intros Hbad.
    destruct (first_bad_split img cs Hbad) as (c & post & B & Hc & Hcs).
    pose proof (extracted_in_range img _ Hv c) as Hin.
    assert (In c cs) as Hc_in by (rewrite Hcs; apply in_elt).
    specialize (Hin Hc_in).
    unfold save_outcome, save_errors in *. rewrite B in *.
    unfold size_ok in Hc.
    destruct (extracted_size img c) as [n|] eqn:En; [|congruence].
    destruct c as [[t h] s]. simpl in *.
    exists (good_prefix img cs), t, h, s, post, n.
    repeat split; auto.
    + intros c Hcin.
      exact (proj1 (Forall_forall _ _) (good_prefix_ok img cs) c Hcin).
    + now apply Z.eqb_neq.
    + rewrite W. apply length_writes_from.
Qed.

Lemma save_size_mismatch_witness :
  result (save (F := damaged_medium) []) = Some false.
Proof.
  destruct (save_size_mismatch (F := damaged_medium) [] 80 1 6 eq_refl)
    as [_ H].
  - intros t h _ _. unfold sectors_at. simpl.
    destruct (_ =? 1); simpl; lia.
  - destruct H as (pre & t & h & s & post & n & _ & _ & _ & _ & R & _).
    + exists (1, 0, 2). split; [|reflexivity].
      apply (in_save_coords 80 1 6 1 0 2). lia.
    + exact R.
Defined.

(** C4: the claim fails on a fully unformatted image, the case the source
    names where it forces the head count.  On [blank_medium] the probe
    reports no head, so [save] goes over one head and 80 * 6 sector
    positions; the extraction yields no sector at all, so no extracted
    sector has a wrong size; and yet [save] neither returns true, nor
    returns false, nor prints an error line: its first step evaluates
    [sectors[0].size()] on the empty vector, an index outside the vector,
    before any write. *)
Theorem save_unformatted_image :
  probed_heads (F := blank_medium) [] = 0 /\
  coords_of (F := blank_medium) [] = save_coords 80 1 6 /\
  (forall t h, sectors_at (F := blank_medium) [] t h = []) /\
  (forall c, extracted_size (F := blank_medium) [] c = None) /\
  fst (save (F := blank_medium) []) = OutOfBounds /\
  result (save (F := blank_medium) []) <> Some true /\
  result (save (F := blank_medium) []) <> Some false /\
  writes (snd (save (F := blank_medium) [])) = [] /\
  errors (snd (save (F := blank_medium) [])) = [].
Proof.
  assert (R : save (F := blank_medium) [] =
              (OutOfBounds,
               {| file_offset := 0; writes := []; errors := [] |}))
    by (vm_compute; reflexivity).
  split; [reflexivity|]. split; [reflexivity|].
  split; [intros t h; reflexivity|].
  split.
  { intros [[t h] s]. unfold extracted_size.
    change (sectors_at (F := blank_medium) [] t h) with (@nil (list byte)).
    destruct (Z.to_nat s); reflexivity. }
  rewrite R. unfold result. cbn [fst snd writes errors].
  repeat split; discriminate.
Qed.

(** C5: whatever the probe reports, with a head count that is not
    negative, [save] loops over 80 tracks, over the probed number of heads
    or over 1 head when the probe reports none, and over 6 sectors: its
    loops go through exactly the triples (t, h, s) with t below 80, h below
    that head count and s below 6, each track and head with its six
    sectors. *)
Theorem save_forces_geometry {F : floppy_image_format_t}
    (img : floppy_image) (tc hc sc : Z)
    (Hp : get_geometry_mfm_pc img 2000 = (tc, hc, sc))
    (Hh : 0 <= hc) :
  save_geometry (tc, hc, sc) = (80, Z.max 1 hc, 6) /\
  (hc = 0 -> Z.max 1 hc = 1) /\ (hc <> 0 -> Z.max 1 hc = hc) /\
  1 <= Z.max 1 hc /\
  (forall st,
     save_body img st =
       (for_each (save_coords 80 (Z.max 1 hc) 6) (save_step img) ;;
        return_ true) st) /\
  (forall t h s,
     In (t, h, s) (save_coords 80 (Z.max 1 hc) 6) <->
     0 <= t < 80 /\ 0 <= h < Z.max 1 hc /\ 0 <= s < 6) /\
  save_coords 80 (Z.max 1 hc) 6 =
    flat_map (fun t => flat_map (record_coords t) (zrange 0 (Z.max 1 hc)))
      (zrange 0 80) /\
  Z.of_nat (length (save_coords 80 (Z.max 1 hc) 6)) = 80 * Z.max 1 hc * 6.
Proof.
  assert (E : forced_heads hc = Z.max 1 hc).
  { unfold forced_heads. destruct (Z.eqb_spec hc 0); lia. }
  split.
  { unfold save_geometry.
    replace (if negb (tc =? 80) then 80 else tc) with 80
      by (destruct (Z.eqb_spec tc 80); simpl; congruence).
    replace (if negb (sc =? 6) then 6 else sc) with 6
      by (destruct (Z.eqb_spec sc 6); simpl; congruence).
    fold (forced_heads hc). now rewrite E. }
  split; [lia|]. split; [lia|]. split; [lia|].
  split.
  { intros st. rewrite <- E. apply (save_body_flat img tc hc sc st Hp). }
  split; [intros t h s; apply in_save_coords|].
  split; [reflexivity|].
  apply length_save_coords; lia.
Qed.

Lemma save_forces_geometry_witness :
  save_geometry (0, 0, 0) = (80, 1, 6).
Proof.
  exact (proj1 (save_forces_geometry (F := unprobed_medium) [] 0 0 0
                  eq_refl (Z.le_refl 0))).
Defined.

Section SaveLayout.
Context {F : floppy_image_format_t}.
Variable img : floppy_image.

Lemma good_prefix_prefix (l : list (Z * Z * Z)) :
  exists rest, l = good_prefix img l ++ rest.
Proof.
  induction l as [|c l [rest IH]]; simpl; [exists []; reflexivity|].
  destruct (size_ok img c).
  - exists rest. simpl. now rewrite <- IH.
  - exists (c :: l). reflexivity.
Qed.

Lemma writes_from_nth_size (l : list (Z * Z * Z)) :
  Forall (fun c => size_ok img c = true) l ->
  forall off k c,
    nth_error l k = Some c ->
    vsize (snd (nth k (writes_from img off l) (0, []))) =
    expected_size (snd c).
Proof.
  induction 1 as [|x l Hx Hl IH]; intros off k c Hk;
    [destruct k; discriminate|].
  destruct x as [[t h] s]. destruct k as [|k]; simpl in *.
  - injection Hk as <-. apply size_ok_spec in Hx.
    destruct Hx as [v [E1 E2]]. simpl in *.
    now rewrite (nth_error_nth _ _ _ E1).
  - apply IH. exact Hk.
Qed.

Lemma save_coords_negative (hc : Z) : hc <= 0 -> save_coords 80 hc 6 = [].
Proof.
  intros H. unfold save_coords. rewrite (zrange_empty 0 hc) by lia.
  induction (zrange 0 80); cbn [flat_map app]; auto.
Qed.

(** The writes of the good prefix of [save_coords], for a head count an
    [int] can hold. *)
Lemma save_layout (hc : Z) :
  hc < 2 ^ 31 ->
  let cs := save_coords 80 hc 6 in
  let ws := writes_from img 0 (good_prefix img cs) in
  laid_out 0 ws /\
  (forall k c, (k < length ws)%nat -> nth_error cs k = Some c ->
     fst (nth k ws (0, [])) = sector_offset hc c /\
     vsize (snd (nth k ws (0, []))) = expected_size (snd c)).
Proof.
  intros Hint cs ws.
  destruct (Z.le_gt_cases hc 0) as [Hneg|Hpos].
  { subst ws cs. rewrite save_coords_negative by assumption.
    cbn [good_prefix writes_from laid_out length].
    split; [exact I|]. intros k c Hk. lia. }
  assert (Hlen : Z.of_nat (length cs) = 80 * hc * 6)
    by (apply length_save_coords; lia).
  pose proof (length_good_prefix img cs) as Hpre.
  pose proof (good_prefix_ok img cs) as Hok.
  destruct (good_prefix_prefix cs) as [rest Hrest].
  split.
  - assert (P : 2 ^ 64 = 18446744073709551616) by reflexivity.
    assert (Q : 2 ^ 31 = 2147483648) by reflexivity.
    apply writes_from_laid_out; [exact Hok|lia|lia].
  - intros k c Hk Hc. subst ws. rewrite length_writes_from in Hk.
    assert (Hc' : nth_error (good_prefix img cs) k = Some c).
    { rewrite Hrest in Hc. rewrite nth_error_app1 in Hc; assumption. }
    split; [|apply (writes_from_nth_size _ Hok 0 k c Hc')].
    pose proof (offsets_save_coords img hc) as Ho.
    fold cs in Ho. rewrite Hrest in Ho at 1.
    rewrite writes_from_app, map_app in Ho.
    assert (P : 2 ^ 64 = 18446744073709551616) by reflexivity.
    assert (Q : 2 ^ 31 = 2147483648) by reflexivity.
    specialize (Ho ltac:(lia) ltac:(lia)).
    assert (E : nth k (map fst (writes_from img 0 (good_prefix img cs))) 0 =
                nth k (map (sector_offset hc) cs) 0).
    { rewrite <- Ho. rewrite app_nth1; [reflexivity|].
      now rewrite length_map, length_writes_from. }
    change 0 with (fst (0, @nil byte)) in E at 2.
    rewrite map_nth in E. rewrite E.
    rewrite (nth_error_nth _ _ _ (map_nth_error (sector_offset hc) _ _ Hc)).
    reflexivity.
Qed.

End SaveLayout.

(** The six sectors of a track record, spelled out. *)
Lemma record_sectors_6 (c : list byte) (off : Z) :
  record_sectors c off =
    [ {| data := slice c (off + 1024 * 0) 1024; size := 1024;
         sector_id := 0 |};
      {| data := slice c (off + 1024 * 1) 1024; size := 1024;
         sector_id := 1 |};
      {| data := slice c (off + 1024 * 2) 1024; size := 1024;
         sector_id := 2 |};
      {| data := slice c (off + 1024 * 3) 1024; size := 1024;
         sector_id := 3 |};
      {| data := slice c (off + 1024 * 4) 1024; size := 1024;
         sector_id := 4 |};
      {| data := slice c (off + 1024 * 5) 512; size := 512;
         sector_id := 5 |} ].
Proof. reflexivity. Qed.

(** C6: for a recognized container held in memory [load] reads, for each
    track, the record of 5632 bytes at offset (track * 1 + 0) * 5632 and
    hands its six slices on, five of 1024 bytes and one of 512 bytes with
    the ids 0..5 in this order; and in one call of [save], for a head count
    an [int] holds, every write goes to the offset that is the sum of the
    sizes of the writes before it, the offsets ascend strictly, and the
    sector (t, h, s) goes to (t * heads + h) * 5632 + 1024 * s with the size
    of its position. *)
Theorem container_offset_mapping {F : floppy_image_format_t}
    (c buf : list byte) (img img' : floppy_image) (tc hc sc : Z)
    (Hp : get_geometry_mfm_pc img' 2000 = (tc, hc, sc))
    (Hint : hc < 2 ^ 31) :
  (Z.of_nat (length c) = 450560 ->
   reads (snd (load (mem_reader c) buf img)) =
     map (fun t => ((t * 1 + 0) * 5632, 5632)) (zrange 0 80) /\
   image (snd (load (mem_reader c) buf img)) =
     set_variant DSDD (tracks_generated c (zrange 0 80) img)) /\
  (forall off,
     map size (record_sectors c off) = [1024; 1024; 1024; 1024; 1024; 512] /\
     map sector_id (record_sectors c off) = [0; 1; 2; 3; 4; 5] /\
     map data (record_sectors c off) =
       [ slice c off 1024; slice c (off + 1024) 1024;
         slice c (off + 2048) 1024; slice c (off + 3072) 1024;
         slice c (off + 4096) 1024; slice c (off + 5120) 512 ]) /\
  let ws := writes (snd (save img')) in
  (forall k, (k < length ws)%nat ->
     fst (nth k ws (0, [])) = written (firstn k ws)) /\
  (forall j k, (j < k < length ws)%nat ->
     fst (nth j ws (0, [])) < fst (nth k ws (0, []))) /\
  (forall k x, (k < length ws)%nat ->
     nth_error (save_coords 80 (forced_heads hc) 6) k = Some x ->
     fst (nth k ws (0, [])) = sector_offset (forced_heads hc) x /\
     vsize (snd (nth k ws (0, []))) = expected_size (snd x)).
Proof.
  split; [apply load_mem_recognized|].
  split.
  { intros off. rewrite record_sectors_6. simpl.
    replace (off + 0) with off by lia. auto. }
  intros ws.
  destruct (save_run img' tc hc sc Hp) as (_ & W & _).
  assert (Hint' : forced_heads hc < 2 ^ 31).
  { unfold forced_heads. destruct (hc =? 0); lia. }
  destruct (save_layout img' (forced_heads hc) Hint') as [L N].
  subst ws. rewrite W. repeat split.
  - intros k Hk. destruct (laid_out_nth _ 0 k L Hk) as [E _]. lia.
  - intros j k Hjk. exact (laid_out_ascending _ 0 j k L Hjk).
  - apply N; assumption.
  - apply N; assumption.
Qed.

Lemma container_offset_mapping_witness :
  let ws := writes (snd (save (F := damaged_medium) [])) in
  fst (nth 7 ws (0, [])) = written (firstn 7 ws) /\
  fst (nth 7 ws (0, [])) = sector_offset 1 (1, 0, 1).
Proof.
  destruct (container_offset_mapping (F := damaged_medium) [] [] [] []
              80 1 6 eq_refl eq_refl) as (_ & _ & H1 & _ & H3).
  split.
  - apply H1. apply Nat.ltb_lt. vm_compute. reflexivity.
  - apply (H3 7%nat (1, 0, 1)).
    + apply Nat.ltb_lt. vm_compute. reflexivity.
    + vm_compute. reflexivity.
Defined.

(* ------------------------------------------------------------------ *)
(** * The codec: bits *)

Lemma length_z_bits (n : nat) (v : Z) : length (z_bits n v) = n.
Proof. unfold z_bits. now rewrite length_map, length_rev, length_seq. Qed.

Lemma z_bits_S (n : nat) (v : Z) :
  z_bits (S n) v = Z.testbit v (Z.of_nat n) :: z_bits n v.
Proof.
  unfold z_bits. rewrite seq_S. simpl. rewrite rev_app_distr. reflexivity.
Qed.

Lemma bits_z_snoc_free (l : list bool) (a : Z) :
  fold_left (fun a b => 2 * a + Z.b2z b) l a =
  a * 2 ^ Z.of_nat (length l) + bits_z l.
Proof.
  unfold bits_z. revert a. induction l as [|b l IH]; intros a.
  - simpl. lia.
  - cbn [fold_left]. rewrite IH, (IH (2 * 0 + Z.b2z b)).
    rewrite length_cons, Nat2Z.inj_succ, Z.pow_succ_r by lia. lia.
Qed.

Lemma bits_z_cons (b : bool) (l : list bool) :
  bits_z (b :: l) = Z.b2z b * 2 ^ Z.of_nat (length l) + bits_z l.
Proof.
  unfold bits_z at 1. cbn [fold_left]. rewrite bits_z_snoc_free. lia.
Qed.

(** Spelling the [n] low bits of a number and reading them back gives the
    number modulo 2^n. *)
Lemma bits_z_z_bits (n : nat) (v : Z) :
  bits_z (z_bits n v) = v mod 2 ^ Z.of_nat n.
Proof.
  induction n as [|n IH].
  - simpl. now rewrite Z.mod_1_r.
  - rewrite z_bits_S, bits_z_cons, IH, length_z_bits.
    rewrite Nat2Z.inj_succ, Z.pow_succ_r by lia.
    rewrite (Z.mul_comm 2), Z.rem_mul_r by lia.
    rewrite Z.testbit_spec' by lia. lia.
Qed.

Lemma bits_z_z_bits_small (n : nat) (v : Z) :
  0 <= v < 2 ^ Z.of_nat n -> bits_z (z_bits n v) = v.
Proof. intros H. rewrite bits_z_z_bits. now apply Z.mod_small. Qed.

Lemma bits_byte_bits (b : byte) : bits_byte (byte_bits b) = b.
Proof.
  unfold byte_bits, bits_byte.
  pose proof (Byte.of_bits_to_bits b) as E.
  destruct (Byte.to_bits b)
    as (b0 & b1 & b2 & b3 & b4 & b5 & b6 & b7).
  exact E.
Qed.

Lemma length_byte_bits (b : byte) : length (byte_bits b) = 8%nat.
Proof.
  unfold byte_bits.
  destruct (Byte.to_bits b)
    as (b0 & b1 & b2 & b3 & b4 & b5 & b6 & b7).
  reflexivity.
Qed.

Lemma byte_bits_app (b : byte) (r : list bool) :
  firstn 8 (byte_bits b ++ r) = byte_bits b /\
  skipn 8 (byte_bits b ++ r) = r.
Proof.
  unfold byte_bits.
  destruct (Byte.to_bits b)
    as (b0 & b1 & b2 & b3 & b4 & b5 & b6 & b7).
  split; reflexivity.
Qed.

(** The bytes read back from the bits of a list of bytes. *)
Lemma bits_bytes_bits (d : list byte) (r : list bool) :
  bits_bytes (length d) (flat_map byte_bits d ++ r) = d.
Proof.
  induction d as [|b d IH]; [reflexivity|].
  cbn [length flat_map bits_bytes]. rewrite <- app_assoc.
  destruct (byte_bits_app b (flat_map byte_bits d ++ r)) as [E1 E2].
  rewrite E1, E2, bits_byte_bits, IH. reflexivity.
Qed.

Lemma length_payload (d : list byte) :
  length (flat_map byte_bits d) = (8 * length d)%nat.
Proof.
  induction d as [|b d IH]; [reflexivity|].
  cbn [flat_map]. rewrite length_app, length_byte_bits, IH.
  cbn [length]. lia.
Qed.

Lemma length_repeat_bits (n : Z) (bits : list bool) :
  length (repeat_bits n bits) = (Z.to_nat n * length bits)%nat.
Proof.
  unfold repeat_bits. induction (Z.to_nat n) as [|k IH]; [reflexivity|].
  cbn [repeat concat]. rewrite length_app, IH. lia.
Qed.

(* ------------------------------------------------------------------ *)
(** * The codec: modulation *)

Lemma length_mfm_cells (p : bool) (bits : list bool) :
  length (mfm_cells p bits) = (2 * length bits)%nat.
Proof.
  revert p. induction bits as [|d r IH]; intros p; [reflexivity|].
  cbn [mfm_cells length]. rewrite IH. lia.
Qed.

(** Reading the data bits of modulated bits gives the bits back, whatever
    came before them. *)
Lemma read_bits_mfm (bits : list bool) (p : bool) (rest : list bool) :
  read_bits (length bits) (mfm_cells p bits ++ rest) = Some (bits, rest).
Proof.
  revert p. induction bits as [|d r IH]; intros p; [reflexivity|].
  cbn [length mfm_cells read_bits app]. now rewrite IH.
Qed.

Lemma read_bits_add (a b : nat) (l l1 l2 x y : list bool) :
  read_bits a l = Some (x, l1) -> read_bits b l1 = Some (y, l2) ->
  read_bits (a + b) l = Some (x ++ y, l2).
Proof.
  revert l x. induction a as [|a IH]; intros l x Ha Hb.
  - simpl in Ha. injection Ha as <- <-. exact Hb.
  - cbn [read_bits Nat.add] in *.
    destruct l as [|c [|d r]]; try discriminate.
    destruct (read_bits a r) as [[bs r']|] eqn:E; [|discriminate].
    injection Ha as <- <-.
    now rewrite (IH r bs E Hb).
Qed.

Lemma last_cons_default {A} (x p : A) (l : list A) :
  last (x :: l) p = last l x.
Proof.
  revert x p. induction l as [|y l IH]; intros x p; [reflexivity|].
  change (last (x :: y :: l) p) with (last (y :: l) p).
  now rewrite !IH.
Qed.

Lemma mfm_cells_app (p : bool) (a b : list bool) :
  mfm_cells p (a ++ b) = mfm_cells p a ++ mfm_cells (last a p) b.
Proof.
  revert p. induction a as [|d r IH]; intros p; [reflexivity|].
  cbn [app mfm_cells]. rewrite IH, last_cons_default. reflexivity.
Qed.

Lemma data_bits_mfm (p : bool) (bits : list bool) :
  data_bits (mfm_cells p bits) = bits.
Proof.
  revert p. induction bits as [|d r IH]; intros p; [reflexivity|].
  cbn [mfm_cells data_bits]. now rewrite IH.
Qed.

(* ------------------------------------------------------------------ *)
(** * The codec: checksum *)

Lemma crc_bits_app (r : Z) (a b : list bool) :
  crc_bits r (a ++ b) = crc_bits (crc_bits r a) b.
Proof. unfold crc_bits. apply fold_left_app. Qed.

(** The checksum over the three sync marks, the value every field starts
    from. *)
Lemma crc16_sync_data : crc16 sync_data = 0xcdb4.
Proof. reflexivity. Qed.

(* ------------------------------------------------------------------ *)
(** * The codec: what the encoder writes *)

Lemma layout_app (p : bool) (a b : list item) :
  layout p (a ++ b) = layout p a ++ layout (layout_last p a) b.
Proof.
  revert p. induction a as [|it a IH]; intros p; [reflexivity|].
  cbn [app layout layout_last]. now rewrite IH, app_assoc.
Qed.

Lemma layout_last_app (p : bool) (a b : list item) :
  layout_last p (a ++ b) = layout_last (layout_last p a) b.
Proof.
  revert p. induction a as [|it a IH]; intros p; [reflexivity|].
  cbn [app layout_last]. now rewrite IH.
Qed.

Lemma repeat_bits_1 (bits : list bool) : repeat_bits 1 bits = bits.
Proof. unfold repeat_bits. simpl. apply app_nil_r. Qed.

Lemma put_instr_plain (track head : Z) (sect : list desc_s) (idx : Z)
    (e : desc_e) (it : item) (w : walker) :
  plain_item track head sect idx e = Some it ->
  has_type END e = false /\
  put_instr track head sect idx e w = Some (put_item it w).
Proof.
  unfold plain_item, put_instr, has_type.
  destruct (type e); try discriminate; cbn [desc_type_eqb].
  - intros E. injection E as <-. auto.
  - intros E. injection E as <-. auto.
  - intros E. injection E as <-. auto.
  - intros E. injection E as <-. auto.
  - destruct (sector_at sect idx); [|discriminate].
    intros E. injection E as <-. auto.
  - destruct (sector_at sect idx); [|discriminate].
    intros E. injection E as <-. auto.
  - destruct (sector_at sect (if p1 e <? 0 then idx else p1 e));
      [|discriminate].
    intros E. injection E as <-. auto.
Qed.

(** A run of plain instructions writes its items. *)
Lemma put_block_plain (track head : Z) (sect : list desc_s) (idx : Z)
    (d d' : list desc_e) (its : list item) (w : walker) :
  plain_items track head sect idx d = Some its ->
  put_block track head sect idx (d ++ d') w =
  put_block track head sect idx d' (put_items its w).
Proof.
  revert its w. induction d as [|e d IH]; intros its w H.
  - injection H as <-. reflexivity.
  - cbn [plain_items] in H.
    destruct (plain_item track head sect idx e) as [it|] eqn:E;
      [|discriminate].
    destruct (plain_items track head sect idx d) as [its'|] eqn:E';
      [|discriminate].
    injection H as <-.
    destruct (put_instr_plain track head sect idx e it w E) as [H1 H2].
    cbn [app put_block]. rewrite H1, H2.
    change (put_items (it :: its') w) with (put_items its' (put_item it w)).
    apply IH. reflexivity.
Qed.

Lemma put_items_out (its : list item) (w : walker) :
  out (put_items its w) = out w ++ layout (prev w) its /\
  prev (put_items its w) = layout_last (prev w) its.
Proof.
  unfold put_items. revert w. induction its as [|it its IH]; intros w.
  - cbn. now rewrite app_nil_r.
  - cbn [fold_left layout layout_last]. destruct (IH (put_item it w)) as [E1 E2].
    rewrite E1, E2. destruct it; cbn [put_item put_raw put_data out prev
      item_cells item_last]; now rewrite app_assoc.
Qed.

(** An open region takes in the data bits of the items written. *)
Lemma put_items_open (id : Z) (r : region) (its : list item) (w : walker) :
  crc_find id (crc w) = Some r -> is_open r = true ->
  crc_find id (crc (put_items its w)) =
  Some {| acc := crc_bits (acc r) (items_data its); is_open := true |}.
Proof.
  assert (A : forall bits e r0,
            crc_find id e = Some r0 -> is_open r0 = true ->
            crc_find id (crc_accumulate bits e) =
            Some {| acc := crc_bits (acc r0) bits; is_open := true |}).
  { intros bits e. induction e as [|[j q] e IH]; intros r0 H O;
      [discriminate|].
    cbn [crc_find crc_accumulate map fst snd] in *.
    destruct (is_open q) eqn:Oq; cbn [fst snd];
      destruct (j =? id); try (apply IH; assumption).
    - injection H as <-. reflexivity.
    - injection H as <-. congruence. }
  unfold put_items. revert w r. induction its as [|it its IH]; intros w r H O.
  - cbn. rewrite H. destruct r as [a o]. cbn in *. now subst.
  - cbn [fold_left items_data flat_map]. rewrite crc_bits_app.
    assert (H' : crc_find id (crc (put_item it w)) =
                 Some {| acc := crc_bits (acc r)
                                  match it with
                                  | Raw c => data_bits c
                                  | Data b => b
                                  end;
                         is_open := true |}).
    { destruct it; cbn [put_item put_raw put_data crc]; apply A; assumption. }
    rewrite (IH _ _ H' eq_refl). reflexivity.
Qed.

(** A finalized region keeps its value. *)
Lemma put_items_closed (id v : Z) (its : list item) (w : walker) :
  crc_value id (crc w) = Some v ->
  crc_value id (crc (put_items its w)) = Some v.
Proof.
  assert (A : forall bits e,
            crc_value id e = Some v ->
            crc_value id (crc_accumulate bits e) = Some v).
  { intros bits e. unfold crc_value.
    induction e as [|[j q] e IH]; intros H; [discriminate|].
    cbn [crc_find crc_accumulate map fst snd] in *.
    destruct (is_open q) eqn:Oq; cbn [fst snd];
      destruct (j =? id); try (apply IH; assumption).
    - rewrite Oq in H. discriminate.
    - rewrite Oq in *. exact H. }
  unfold put_items. revert w. induction its as [|it its IH]; intros w H;
    [exact H|].
  cbn [fold_left]. apply IH.
  destruct it; cbn [put_item put_raw put_data crc]; apply A; assumption.
Qed.

Lemma crc_find_start (id : Z) (e : engine) :
  crc_find id (crc_start id e) = Some {| acc := 0xffff; is_open := true |}.
Proof. unfold crc_start. cbn [crc_find fst snd]. now rewrite Z.eqb_refl. Qed.

Lemma crc_finalize_open (id : Z) (r : region) (e : engine) :
  crc_find id e = Some r -> is_open r = true ->
  exists e', crc_finalize id e = Some e' /\
             crc_value id e' = Some (acc r mod 2 ^ 16).
Proof.
  intros H O. unfold crc_finalize. rewrite H, O. eexists. split; [reflexivity|].
  unfold crc_value. cbn [crc_find fst snd]. now rewrite Z.eqb_refl.
Qed.
Section PutBody.
Variables (track head : Z) (sect : list desc_s) (idx : Z).

Lemma put_block_start (id : Z) (d : list desc_e) (w : walker) :
  put_block track head sect idx (D1 CRC_CCITT_START id :: d) w =
  put_block track head sect idx d (with_crc (crc_start id (crc w)) w).
Proof. reflexivity. Qed.

Lemma put_block_end (id : Z) (d : list desc_e) (w : walker) (e' : engine) :
  crc_finalize id (crc w) = Some e' ->
  put_block track head sect idx (D1 CRC_END id :: d) w =
  put_block track head sect idx d (with_crc e' w).
Proof.
  intros H. cbn [put_block has_type type D1 desc_type_eqb put_instr p1].
  now rewrite H.
Qed.

Lemma put_block_crc (id v : Z) (d : list desc_e) (w : walker) :
  crc_value id (crc w) = Some v ->
  put_block track head sect idx (D1 CRC id :: d) w =
  put_block track head sect idx d (put_items [Data (z_bits 16 v)] w).
Proof.
  intros H. cbn [put_block has_type type D1 desc_type_eqb put_instr p1].
  now rewrite H.
Qed.

(** A checksummed region: the plain instructions [d1] between
    [CRC_CCITT_START id] and [CRC_END id], then [CRC id]. *)
Lemma put_block_region (id : Z) (d1 d : list desc_e) (its : list item)
    (w : walker) :
  plain_items track head sect idx d1 = Some its ->
  exists w',
    put_block track head sect idx
      (D1 CRC_CCITT_START id :: d1 ++ D1 CRC_END id :: D1 CRC id :: d) w =
    put_block track head sect idx d w' /\
    out w' =
      out w ++
      layout (prev w)
        (its ++ [Data (z_bits 16 (crc_bits 0xffff (items_data its)
                                  mod 2 ^ 16))]) /\
    prev w' =
      layout_last (prev w)
        (its ++ [Data (z_bits 16 (crc_bits 0xffff (items_data its)
                                  mod 2 ^ 16))]).
Proof.
  intros Hp. rewrite put_block_start.
  rewrite (put_block_plain _ _ _ _ d1 _ its _ Hp).
  set (w1 := with_crc (crc_start id (crc w)) w).
  pose proof (put_items_open id _ its w1 (crc_find_start id (crc w)) eq_refl)
    as Hf.
  destruct (crc_finalize_open id _ _ Hf eq_refl) as (e' & He & Hv).
  cbn [acc] in Hv.
  rewrite (put_block_end id _ _ e' He).
  rewrite (put_block_crc id _ _ (with_crc e' (put_items its w1)) Hv).
  eexists. split; [reflexivity|].
  destruct (put_items_out
              [Data (z_bits 16 (crc_bits 65535 (items_data its) mod 2 ^ 16))]
              (with_crc e' (put_items its w1))) as [E1 E2].
  destruct (put_items_out its w1) as [E3 E4].
  rewrite E1, E2. cbn [with_crc out prev]. rewrite E3, E4.
  subst w1. cbn [with_crc out prev].
  rewrite layout_app, layout_last_app, app_assoc. auto.
Qed.

End PutBody.
Lemma walker_eta (w : walker) :
  w = {| out := out w; prev := prev w; crc := crc w |}.
Proof. destruct w; reflexivity. Qed.

Lemma sync_data_raw : data_bits (repeat_bits 3 sync_word) = sync_data.
Proof. reflexivity. Qed.

Lemma id_field_crc (track head : Z) (s : desc_s) :
  crc_bits 0xffff
    (items_data [sync3; Data (z_bits 8 0xfe); Data (z_bits 8 track);
                 Data (z_bits 8 head); Data (z_bits 8 (sector_id s));
                 Data (z_bits 8 (size_code (size s)))]) mod 2 ^ 16 =
  crc16 (sync_data ++ id_bits track head s).
Proof.
  unfold crc16, id_bits, items_data, sync3. cbn [flat_map].
  rewrite sync_data_raw, app_nil_r. reflexivity.
Qed.

Lemma data_field_crc (s : desc_s) :
  crc_bits 0xffff
    (items_data [sync3; Data (z_bits 8 0xfb); Data (payload_bits s)])
    mod 2 ^ 16 =
  crc16 (sync_data ++ data_field_bits s).
Proof.
  unfold crc16, data_field_bits, items_data, sync3. cbn [flat_map].
  rewrite sync_data_raw, app_nil_r. reflexivity.
Qed.

(** One turn of the sector loop writes the items of the sector. *)
Lemma put_body (track head : Z) (sect : list desc_s) (i : Z) (s : desc_s)
    (w : walker) :
  sector_at sect i = Some s ->
  exists e',
    put_block track head sect i esq_6_body w =
    Some {| out := out w ++ layout (prev w) (sector_items track head s);
            prev := false;
            crc := e' |}.
Proof.
  intros Hs.
  change esq_6_body with
    (D1 CRC_CCITT_START 1 :: esq_6_id_region ++ D1 CRC_END 1 :: D1 CRC 1 ::
     ([D2 MFM 0x4e 22; D2 MFM 0x00 12] ++
      D1 CRC_CCITT_START 2 :: esq_6_data_region ++ D1 CRC_END 2 :: D1 CRC 2 ::
      ([D2 MFM 0x4e 84; D2 MFM 0x00 12] ++ []))).
  assert (P1 : plain_items track head sect i esq_6_id_region =
               Some [sync3; Data (z_bits 8 0xfe); Data (z_bits 8 track);
                     Data (z_bits 8 head); Data (z_bits 8 (sector_id s));
                     Data (z_bits 8 (size_code (size s)))]).
  { cbn [esq_6_id_region plain_items plain_item type D0 D2 p1 p2].
    rewrite Hs. cbn [option_map]. rewrite repeat_bits_1. reflexivity. }
  assert (P3 : plain_items track head sect i esq_6_data_region =
               Some [sync3; Data (z_bits 8 0xfb); Data (payload_bits s)]).
  { cbn [esq_6_data_region plain_items plain_item type D1 D2 p1 p2].
    change (-1 <? 0) with true. cbv iota.
    rewrite Hs. cbn [option_map]. rewrite repeat_bits_1. reflexivity. }
  destruct (put_block_region track head sect i 1 _
              ([D2 MFM 0x4e 22; D2 MFM 0x00 12] ++
               D1 CRC_CCITT_START 2 :: esq_6_data_region ++
               D1 CRC_END 2 :: D1 CRC 2 ::
               ([D2 MFM 0x4e 84; D2 MFM 0x00 12] ++ []))
              _ w P1) as (w1 & R1 & O1 & L1).
  rewrite R1.
  rewrite (put_block_plain track head sect i
             [D2 MFM 0x4e 22; D2 MFM 0x00 12] _ gap1_items w1 eq_refl).
  destruct (put_items_out gap1_items w1) as [O2 L2].
  destruct (put_block_region track head sect i 2 _
              ([D2 MFM 0x4e 84; D2 MFM 0x00 12] ++ [])
              _ (put_items gap1_items w1) P3) as (w3 & R3 & O3 & L3).
  rewrite R3.
  rewrite (put_block_plain track head sect i
             [D2 MFM 0x4e 84; D2 MFM 0x00 12] [] gap2_items w3 eq_refl).
  destruct (put_items_out gap2_items w3) as [O4 L4].
  cbn [put_block].
  exists (crc (put_items gap2_items w3)).
  rewrite (walker_eta (put_items gap2_items w3)) at 1.
  f_equal. f_equal.
  - rewrite O4, L3, O3, O2, L2, L1, O1.
    rewrite <- !app_assoc. f_equal.
    rewrite id_field_crc, data_field_crc.
    rewrite <- !layout_app. reflexivity.
Qed.
Lemma sector_items_last (track head : Z) (s : desc_s) (p : bool) :
  layout_last p (sector_items track head s) = false.
Proof. reflexivity. Qed.

Ltac put_turn track head sect i s :=
  match goal with
  | |- context [put_block _ _ _ i esq_6_body ?w] =>
      let e := fresh "e" in
      let E := fresh "E" in
      destruct (put_body track head sect i s w eq_refl) as [e E];
      rewrite E; clear E; cbn [out prev]
  end.

(** The layout of this format writes the items of the track: the leading
    gaps, the six sectors, the closing gap. *)
Lemma encode_layout (track head : Z) (sect : list desc_s) :
  length sect = 6%nat ->
  encode esq_6_desc track head sect =
  Some (layout false (track_items track head sect)).
Proof.
  intros L.
  destruct sect as [|s0 [|s1 [|s2 [|s3 [|s4 [|s5 [|]]]]]]]; try discriminate.
  clear L. unfold encode.
  change (split_at SECTOR_LOOP_START esq_6_desc) with
    (Some (esq_6_pre ++ [], D2 SECTOR_LOOP_START 0 5,
           esq_6_body ++ D0 SECTOR_LOOP_END :: esq_6_post ++ [D0 END])).
  cbv iota beta.
  change (split_at SECTOR_LOOP_END
            (esq_6_body ++ D0 SECTOR_LOOP_END :: esq_6_post ++ [D0 END]))
    with (Some (esq_6_body, D0 SECTOR_LOOP_END, esq_6_post ++ [D0 END])).
  cbv iota beta.
  rewrite (put_block_plain track head _ 0 esq_6_pre [] pre_items
             walker_start eq_refl).
  cbn [put_block].
  change (loop_indices (D2 SECTOR_LOOP_START 0 5)) with [0; 1; 2; 3; 4; 5].
  destruct (put_items_out pre_items walker_start) as [O0 P0].
  cbn [walker_start out prev app] in O0, P0.
  set (sect := [s0; s1; s2; s3; s4; s5]).
  set (w0 := put_items pre_items walker_start) in *.
  cbn [put_loop].
  put_turn track head sect 0 s0. put_turn track head sect 1 s1.
  put_turn track head sect 2 s2. put_turn track head sect 3 s3.
  put_turn track head sect 4 s4. put_turn track head sect 5 s5.
  rewrite (put_block_plain track head sect 0 esq_6_post [D0 END] post_items
             _ eq_refl).
  cbn [put_block has_type type D0 desc_type_eqb option_map].
  match goal with |- context [put_items post_items ?w] =>
    destruct (put_items_out post_items w) as [O7 _]
  end.
  rewrite O7. cbn [out prev]. rewrite O0, P0.
  f_equal. unfold track_items. subst sect. cbn [flat_map].
  rewrite !layout_app, !layout_last_app, !sector_items_last.
  change (layout_last false pre_items) with false.
  rewrite <- !app_assoc. reflexivity.
Qed.

(* ------------------------------------------------------------------ *)
(** * The codec: finding sync marks *)

Lemma starts_with_app (p x y : list bool) :
  (length p <= length x)%nat -> starts_with p (x ++ y) = starts_with p x.
Proof.
  revert x. induction p as [|a p IH]; intros x H; [reflexivity|].
  destruct x as [|b x]; [simpl in H; lia|].
  cbn [app starts_with]. rewrite IH; [reflexivity|]. simpl in H. lia.
Qed.

Lemma starts_with_self (p r : list bool) : starts_with p (p ++ r) = true.
Proof.
  induction p as [|a p IH]; [reflexivity|].
  cbn [app starts_with]. now rewrite eqb_reflx, IH.
Qed.

Lemma sync_word_head : sync_word = sync_head ++ [true].
Proof. reflexivity. Qed.

Lemma skipn_sync_word (r : list bool) : skipn 16 (sync_word ++ r) = r.
Proof. reflexivity. Qed.

(** Behind three sync marks and before cells that are no sync mark. *)
Lemma skip_syncs_3 (fuel : nat) (x : list bool) :
  (3 <= fuel)%nat -> starts_with sync_word x = false ->
  skip_syncs fuel (sync_word ++ sync_word ++ sync_word ++ x) = x.
Proof.
  intros Hf Hx.
  destruct fuel as [|[|[|fuel]]]; try lia.
  cbn [skip_syncs].
  rewrite starts_with_self, skipn_sync_word.
  rewrite starts_with_self, skipn_sync_word.
  rewrite starts_with_self, skipn_sync_word.
  destruct fuel; cbn [skip_syncs]; [reflexivity|]. now rewrite Hx.
Qed.

(** A gap in which no sync mark starts is passed over. *)
Lemma find_sync_gap (g rest : list bool) :
  clean g sync_head = true ->
  forall n, (length g < n)%nat ->
    find_sync n (g ++ sync_word ++ rest) =
    Some (skip_syncs (length (sync_word ++ rest)) (sync_word ++ rest)).
Proof.
  intros Hc. induction g as [|c g IH]; intros n Hn.
  - destruct n as [|n]; [simpl in Hn; lia|].
    cbn [app]. remember (sync_word ++ rest) as l eqn:El.
    assert (Hs : starts_with sync_word l = true)
      by (subst l; apply starts_with_self).
    destruct l as [|b l]; [discriminate|].
    cbn [find_sync]. now rewrite Hs.
  - destruct n as [|n]; [simpl in Hn; lia|].
    cbn [clean] in Hc. apply andb_prop in Hc. destruct Hc as [H1 H2].
    apply negb_true_iff in H1.
    cbn [app find_sync].
    assert (E : starts_with sync_word (c :: g ++ sync_word ++ rest) = false).
    { rewrite <- H1. rewrite sync_word_head at 2.
      rewrite <- app_assoc.
      change (c :: g ++ sync_head ++ [true] ++ rest)
        with ((c :: g) ++ sync_head ++ [true] ++ rest).
      rewrite (app_assoc (c :: g)).
      apply starts_with_app.
      rewrite length_app. cbn. lia. }
    rewrite E. apply IH; [exact H2|]. simpl in Hn. lia.
Qed.

Lemma length_sync_word : length sync_word = 16%nat.
Proof. reflexivity. Qed.

(** A clean gap, three sync marks, and cells that are no sync mark. *)
Lemma find_sync_sync3 (g x : list bool) (n : nat) :
  clean g sync_head = true -> (length g < n)%nat ->
  starts_with sync_word x = false ->
  find_sync n (g ++ repeat_bits 3 sync_word ++ x) = Some x.
Proof.
  intros Hc Hn Hx.
  change (repeat_bits 3 sync_word)
    with (sync_word ++ sync_word ++ sync_word ++ []).
  rewrite <- !app_assoc. cbn [app].
  rewrite (find_sync_gap g _ Hc n Hn).
  rewrite skip_syncs_3; [reflexivity| |exact Hx].
  rewrite !length_app, length_sync_word. lia.
Qed.

(* ------------------------------------------------------------------ *)
(** * The codec: one sector read back *)

Lemma read_bits_layout (b : list bool) (p : bool) (r : list item) :
  read_bits (length b) (layout p (Data b :: r)) =
  Some (b, layout (last b p) r).
Proof. cbn [layout item_cells item_last]. apply read_bits_mfm. Qed.

Lemma firstn_exact {A} (a b : list A) (n : nat) :
  length a = n -> firstn n (a ++ b) = a /\ skipn n (a ++ b) = b.
Proof.
  intros <-. split.
  - rewrite firstn_app, Nat.sub_diag, firstn_all. cbn. apply app_nil_r.
  - rewrite skipn_app, Nat.sub_diag, skipn_all. reflexivity.
Qed.

(** The four fields of an identification field, cut out of its bits. *)
Lemma id_fields (a b c d e : list bool) :
  length a = 8%nat -> length b = 8%nat -> length c = 8%nat ->
  length d = 8%nat ->
  firstn 32 (a ++ b ++ c ++ d ++ e) = a ++ b ++ c ++ d /\
  skipn 32 (a ++ b ++ c ++ d ++ e) = e /\
  firstn 8 (a ++ b ++ c ++ d) = a /\
  firstn 8 (skipn 8 (a ++ b ++ c ++ d)) = b /\
  firstn 8 (skipn 16 (a ++ b ++ c ++ d)) = c /\
  firstn 8 (skipn 24 (a ++ b ++ c ++ d)) = d.
Proof.
  intros Ha Hb Hc Hd.
  repeat (destruct a as [|? a]; try discriminate).
  repeat (destruct b as [|? b]; try discriminate).
  repeat (destruct c as [|? c]; try discriminate).
  repeat (destruct d as [|? d]; try discriminate).
  repeat split.
Qed.

Lemma bits_z_crc16 (bits : list bool) :
  bits_z (z_bits 16 (crc16 bits)) = crc16 bits.
Proof.
  rewrite bits_z_z_bits. unfold crc16.
  change (2 ^ Z.of_nat 16) with (2 ^ 16). apply Z.mod_mod. discriminate.
Qed.

Lemma bits_z_byte (v : Z) : 0 <= v < 256 -> bits_z (z_bits 8 v) = v.
Proof. intros H. apply bits_z_z_bits_small. exact H. Qed.

(** Both gaps and the leading gaps are clean, whatever bit came before
    them, and nothing that looks like a sync mark is in the closing gap. *)
Lemma gap1_clean (p : bool) :
  clean (layout p gap1_items) sync_head = true /\
  (length (layout p gap1_items) < data_window)%nat.
Proof. destruct p; split; vm_compute; reflexivity || lia. Qed.

Lemma read_bits_fields (p : bool) (a b c d e : list bool) (r : list item) :
  length a = 8%nat -> length b = 8%nat -> length c = 8%nat ->
  length d = 8%nat -> length e = 16%nat ->
  read_bits 48
    (layout p (Data a :: Data b :: Data c :: Data d :: Data e :: r)) =
  Some (a ++ b ++ c ++ d ++ e,
        layout (last e (last d (last c (last b (last a p))))) r).
Proof.
  intros Ha Hb Hc Hd He.
  change 48%nat with (8 + (8 + (8 + (8 + 16))))%nat.
  eapply read_bits_add; [rewrite <- Ha; apply read_bits_layout|].
  eapply read_bits_add; [rewrite <- Hb; apply read_bits_layout|].
  eapply read_bits_add; [rewrite <- Hc; apply read_bits_layout|].
  eapply read_bits_add; [rewrite <- Hd; apply read_bits_layout|].
  rewrite <- He. apply read_bits_layout.
Qed.

Lemma read_bits_payload (p : bool) (a e : list bool) (n : nat)
    (r : list item) :
  length a = n -> length e = 16%nat ->
  read_bits (n + 16) (layout p (Data a :: Data e :: r)) =
  Some (a ++ e, layout (last e (last a p)) r).
Proof.
  intros Ha He.
  eapply read_bits_add; [rewrite <- Ha; apply read_bits_layout|].
  rewrite <- He. apply read_bits_layout.
Qed.

Lemma read_bits_two (p1 p2 : bool) (a e y : list bool) (n : nat) :
  length a = n -> length e = 16%nat ->
  read_bits (n + 16) (mfm_cells p1 a ++ mfm_cells p2 e ++ y) =
  Some (a ++ e, y).
Proof.
  intros Ha He.
  eapply read_bits_add; [rewrite <- Ha; apply read_bits_mfm|].
  rewrite <- He. apply read_bits_mfm.
Qed.

Lemma payload_bits_full (s : desc_s) :
  Z.of_nat (length (data s)) = size s ->
  payload_bits s = flat_map byte_bits (data s) /\
  length (payload_bits s) = (8 * Z.to_nat (size s))%nat /\
  Z.to_nat (size s) = length (data s).
Proof.
  intros H. unfold payload_bits.
  rewrite firstn_all2 by lia. rewrite length_payload. repeat split; lia.
Qed.

Lemma decode_field_sector (sizes : list Z) (track head : Z) (s : desc_s)
    (rest : list item) :
  0 <= track < 256 -> 0 <= head < 256 -> 0 <= sector_id s < 256 ->
  0 <= size_code (size s) < 256 ->
  nth_error sizes (Z.to_nat (sector_id s)) = Some (size s) ->
  Z.of_nat (length (data s)) = size s ->
  decode_field sizes (layout true (sector_core track head s ++ rest)) =
  (Some (Z.to_nat (sector_id s),
         {| f_track := track; f_head := head; f_sector_id := sector_id s;
            f_size_code := size_code (size s); f_data := data s;
            f_data_crc_ok := true |}),
   layout (layout_last true (sector_core track head s)) rest).
Proof.
  intros Ht Hh Hs Hc Hn Hd.
  unfold decode_field, sector_core.
  rewrite <- !app_assoc. cbn [app].
  change 8%nat with (length (z_bits 8 254)) at 1.
  rewrite read_bits_layout.
  change (bits_z (z_bits 8 254) =? 254) with true. cbv iota. cbn [negb].
  rewrite read_bits_fields by apply length_z_bits.
  destruct (id_fields (z_bits 8 track) (z_bits 8 head)
              (z_bits 8 (sector_id s)) (z_bits 8 (size_code (size s)))
              (z_bits 16 (crc16 (sync_data ++ id_bits track head s))))
    as (F1 & F2 & F3 & F4 & F5 & F6); try apply length_z_bits.
  rewrite F1, F2, F3, F4, F5, F6.
  rewrite bits_z_crc16. fold (id_bits track head s).
  rewrite Z.eqb_refl. cbn [negb].
  rewrite !bits_z_byte by assumption.
  rewrite Hn.
  match goal with |- context [layout ?x (gap1_items ++ _)] =>
    generalize x
  end.
  intros b.
  rewrite layout_app.
  change (layout_last b gap1_items) with false.
  cbn [layout item_cells item_last sync3].
  change (last (repeat_bits 3 sync_word) false) with true.
  assert (Hfb : forall y, starts_with sync_word
                            (mfm_cells true (z_bits 8 251) ++ y) = false)
    by reflexivity.
  destruct (gap1_clean b) as [G1 G2].
  rewrite (find_sync_sync3 _ _ data_window G1 G2 (Hfb _)).
  change 8%nat with (length (z_bits 8 251)) at 1.
  rewrite read_bits_mfm.
  change (bits_z (z_bits 8 251) =? 251) with true. cbn [negb].
  destruct (payload_bits_full s Hd) as (P1 & P2 & P3).
  rewrite (read_bits_two _ _ (payload_bits s) _ _ _ P2 (length_z_bits 16 _)).
  destruct (firstn_exact (payload_bits s)
              (z_bits 16 (crc16 (sync_data ++ data_field_bits s)))
              _ P2) as [Q1 Q2].
  rewrite Q1, Q2, bits_z_crc16. fold (data_field_bits s).
  rewrite Z.eqb_refl.
  rewrite P1 at 1. rewrite P3.
  rewrite <- (app_nil_r (flat_map byte_bits (data s))), bits_bytes_bits.
  reflexivity.
Qed.

(* ------------------------------------------------------------------ *)
(** * The codec: the whole track *)

Lemma length_layout (p : bool) (items : list item) :
  Z.of_nat (length (layout p items)) = items_size items.
Proof.
  revert p. induction items as [|it items IH]; intros p; [reflexivity|].
  cbn [layout items_size]. rewrite length_app, Nat2Z.inj_add, IH.
  destruct it; cbn [item_cells]; [reflexivity|].
  rewrite length_mfm_cells. lia.
Qed.

Lemma items_size_app (a b : list item) :
  items_size (a ++ b) = items_size a + items_size b.
Proof.
  induction a as [|it a IH]; [reflexivity|].
  cbn [app items_size]. destruct it; rewrite IH; lia.
Qed.

(** A sector takes 146 byte times of framing and its payload. *)
Lemma items_size_sector (track head : Z) (s : desc_s) :
  Z.of_nat (length (data s)) = size s ->
  items_size (sector_items track head s) = 16 * (146 + size s).
Proof.
  intros Hd. destruct (payload_bits_full s Hd) as (_ & P2 & _).
  unfold sector_items, sector_core, gap1_items, gap2_items, sync3, gap,
    zero_gap.
  cbn [app items_size].
  rewrite P2, !length_z_bits, !length_repeat_bits, !length_z_bits.
  rewrite length_sync_word. lia.
Qed.

Lemma sync3_last (q : bool) : item_last q sync3 = true.
Proof. reflexivity. Qed.

Lemma length_sync3 : length (repeat_bits 3 sync_word) = 48%nat.
Proof. reflexivity. Qed.

(** One turn of the decoder: over a clean gap to the sync marks of a sector,
    and the sector into its slot. *)
Lemma decode_turn (sizes : list Z) (track head : Z) (s : desc_s)
    (g rest : list item) (p : bool) (fuel : nat) (slots : list slot) :
  0 <= track < 256 -> 0 <= head < 256 -> 0 <= sector_id s < 256 ->
  0 <= size_code (size s) < 256 ->
  nth_error sizes (Z.to_nat (sector_id s)) = Some (size s) ->
  Z.of_nat (length (data s)) = size s ->
  clean (layout p g) sync_head = true ->
  decode_loop (S fuel) sizes
    (layout p (g ++ sync3 :: sector_core track head s ++ rest)) slots =
  decode_loop fuel sizes
    (layout (layout_last true (sector_core track head s)) rest)
    (set_slot (Z.to_nat (sector_id s)) (resolved track head s) slots).
Proof.
  intros Ht Hh Hs Hc Hn Hd Hg.
  cbn [decode_loop]. rewrite layout_app.
  cbn [layout]. rewrite sync3_last. cbn [item_cells sync3].
  assert (Hfe : starts_with sync_word
                  (layout true (sector_core track head s ++ rest)) = false)
    by reflexivity.
  rewrite (find_sync_sync3 _ _ _ Hg); [|
    rewrite !length_app, length_sync3; lia | exact Hfe].
  rewrite (decode_field_sector sizes track head s rest Ht Hh Hs Hc Hn Hd).
  reflexivity.
Qed.

Lemma pre_clean : clean (layout false pre_items) sync_head = true.
Proof. vm_compute. reflexivity. Qed.

Lemma gap2_clean (p : bool) : clean (layout p gap2_items) sync_head = true.
Proof. destruct p; vm_compute; reflexivity. Qed.

(** Behind the last sector no sync mark is left. *)
Lemma decode_end (sizes : list Z) (p : bool) (fuel : nat)
    (slots : list slot) :
  decode_loop fuel sizes (layout p (gap2_items ++ post_items)) slots = slots.
Proof.
  destruct fuel; [reflexivity|]. cbn [decode_loop].
  assert (E : find_sync (length (layout p (gap2_items ++ post_items)))
                (layout p (gap2_items ++ post_items)) = None)
    by (destruct p; vm_compute; reflexivity).
  now rewrite E.
Qed.

Lemma policy_sectors_inv (sect : list desc_s) :
  policy_sectors sect ->
  exists s0 s1 s2 s3 s4 s5,
    sect = [s0; s1; s2; s3; s4; s5] /\
    (sector_id s0 = 0 /\ size s0 = 1024 /\ Z.of_nat (length (data s0)) = 1024) /\
    (sector_id s1 = 1 /\ size s1 = 1024 /\ Z.of_nat (length (data s1)) = 1024) /\
    (sector_id s2 = 2 /\ size s2 = 1024 /\ Z.of_nat (length (data s2)) = 1024) /\
    (sector_id s3 = 3 /\ size s3 = 1024 /\ Z.of_nat (length (data s3)) = 1024) /\
    (sector_id s4 = 4 /\ size s4 = 1024 /\ Z.of_nat (length (data s4)) = 1024) /\
    (sector_id s5 = 5 /\ size s5 = 512 /\ Z.of_nat (length (data s5)) = 512).
Proof.
  intros (Hi & Hz & Hd).
  destruct sect as [|s0 [|s1 [|s2 [|s3 [|s4 [|s5 [|]]]]]]]; try discriminate.
  exists s0, s1, s2, s3, s4, s5. split; [reflexivity|].
  cbn [map] in Hi, Hz.
  injection Hi as I0 I1 I2 I3 I4 I5. injection Hz as Z0 Z1 Z2 Z3 Z4 Z5.
  repeat match goal with
         | H : Forall _ (_ :: _) |- _ =>
             let A := fresh "D" in
             apply Forall_cons_iff in H; destruct H as [A H]
         end.
  repeat split; congruence.
Qed.

(** The track of six policy sectors has the capacity the format declares. *)
Lemma track_capacity (track head : Z) (sect : list desc_s) :
  policy_sectors sect ->
  Z.of_nat (length (layout false (track_items track head sect))) = 109376.
Proof.
  intros H. destruct (policy_sectors_inv sect H)
    as (s0 & s1 & s2 & s3 & s4 & s5 & -> & H0 & H1 & H2 & H3 & H4 & H5).
  rewrite length_layout. unfold track_items. cbn [flat_map].
  rewrite !items_size_app.
  rewrite !items_size_sector by
    (destruct H0 as (? & ? & ?), H1 as (? & ? & ?), H2 as (? & ? & ?),
       H3 as (? & ? & ?), H4 as (? & ? & ?), H5 as (? & ? & ?); congruence).
  change (items_size pre_items) with 2528.
  change (items_size post_items) with 2720.
  change (items_size []) with 0.
  destruct H0 as (_ & -> & _), H1 as (_ & -> & _), H2 as (_ & -> & _),
    H3 as (_ & -> & _), H4 as (_ & -> & _), H5 as (_ & -> & _).
  reflexivity.
Qed.

(** The decoder on the track of six policy sectors. *)
Lemma decode_track (track head : Z) (sect : list desc_s) (fuel : nat) :
  0 <= track < 256 -> 0 <= head < 256 -> policy_sectors sect ->
  (7 <= fuel)%nat ->
  decode_loop fuel [1024; 1024; 1024; 1024; 1024; 512]
    (layout false (track_items track head sect))
    (repeat Unresolved 6) =
  map (resolved track head) sect.
Proof.
  intros Ht Hh H Hf. destruct (policy_sectors_inv sect H)
    as (s0 & s1 & s2 & s3 & s4 & s5 & -> &
        (I0 & Z0 & D0) & (I1 & Z1 & D1) & (I2 & Z2 & D2) &
        (I3 & Z3 & D3) & (I4 & Z4 & D4) & (I5 & Z5 & D5)).
  destruct fuel as [|[|[|[|[|[|[|fuel]]]]]]]; try lia. clear Hf.
  unfold track_items, sector_items. cbn [flat_map].
  rewrite <- !app_assoc. cbn [app].
  rewrite <- !app_assoc.
  rewrite (decode_turn _ track head s0 pre_items); try assumption;
    [ | rewrite I0; lia | rewrite Z0; vm_compute; intuition discriminate
      | rewrite I0, Z0; reflexivity | rewrite D0, Z0; reflexivity
      | exact pre_clean ].
  rewrite (decode_turn _ track head s1 gap2_items); try assumption;
    [ | rewrite I1; lia | rewrite Z1; vm_compute; intuition discriminate
      | rewrite I1, Z1; reflexivity | rewrite D1, Z1; reflexivity
      | apply gap2_clean ].
  rewrite (decode_turn _ track head s2 gap2_items); try assumption;
    [ | rewrite I2; lia | rewrite Z2; vm_compute; intuition discriminate
      | rewrite I2, Z2; reflexivity | rewrite D2, Z2; reflexivity
      | apply gap2_clean ].
  rewrite (decode_turn _ track head s3 gap2_items); try assumption;
    [ | rewrite I3; lia | rewrite Z3; vm_compute; intuition discriminate
      | rewrite I3, Z3; reflexivity | rewrite D3, Z3; reflexivity
      | apply gap2_clean ].
  rewrite (decode_turn _ track head s4 gap2_items); try assumption;
    [ | rewrite I4; lia | rewrite Z4; vm_compute; intuition discriminate
      | rewrite I4, Z4; reflexivity | rewrite D4, Z4; reflexivity
      | apply gap2_clean ].
  rewrite (decode_turn _ track head s5 gap2_items); try assumption;
    [ | rewrite I5; lia | rewrite Z5; vm_compute; intuition discriminate
      | rewrite I5, Z5; reflexivity | rewrite D5, Z5; reflexivity
      | apply gap2_clean ].
  rewrite decode_end.
  rewrite I0, I1, I2, I3, I4, I5. reflexivity.
Qed.

(** C2: for every track and head number a byte holds and six sectors with
    the ids 0..5, the sizes 1024, 1024, 1024, 1024, 1024, 512 and any
    payload bytes, the layout of this format encodes to a track of 109376
    cells, and decoding that track gives, slot by slot, the sectors back:
    the track and head, the sector id, the size code, the payload, and a
    valid data checksum (an identification field with an invalid checksum
    leaves its slot unresolved). *)
Theorem codec_round_trip (track head : Z) (sect : list desc_s)
    (Ht : 0 <= track < 256) (Hh : 0 <= head < 256)
    (Hs : policy_sectors sect) :
  exists cells,
    encode esq_6_desc track head sect = Some cells /\
    Z.of_nat (length cells) = 109376 /\
    decode cells 6 [1024; 1024; 1024; 1024; 1024; 512] =
      map (resolved track head) sect.
Proof.
  exists (layout false (track_items track head sect)).
  assert (L : length sect = 6%nat).
  { destruct Hs as (Hi & _). apply (f_equal (@length Z)) in Hi.
    now rewrite length_map in Hi. }
  pose proof (track_capacity track head sect Hs) as C.
  split; [apply encode_layout; exact L|]. split; [exact C|].
  unfold decode. change (Z.to_nat 6) with 6%nat.
  change (firstn 6 [1024; 1024; 1024; 1024; 1024; 512])
    with [1024; 1024; 1024; 1024; 1024; 512].
  apply decode_track; try assumption. lia.
Qed.

Lemma codec_round_trip_witness :
  exists cells,
    encode esq_6_desc 3 0 sample_sectors = Some cells /\
    Z.of_nat (length cells) = 109376 /\
    decode cells 6 [1024; 1024; 1024; 1024; 1024; 512] =
      map (resolved 3 0) sample_sectors.
Proof.
  apply (codec_round_trip 3 0 sample_sectors); [lia|lia|].
  repeat split; repeat constructor.
Defined.

(* ------------------------------------------------------------------ *)
(** * Further properties of load *)

Section LoadAnyReader.
Context {F : floppy_image_format_t}.

Lemma load_track_any (io : random_read) (t : Z) (s : load_state) :
  load_track io 1 6 t s =
    (Next tt,
     {| sectdata := buffer_after io t (sectdata s);
        image := generate_track esq_6_desc t 0
                   (map (deref (buffer_after io t (sectdata s)))
                      (load_sectors 6))
                   6 109376 (image s);
        reads := reads s ++ [((t * 1 + 0) * 5632, 5632)] |}).
Proof.
  unfold load_track, for_. change (zrange 0 1) with [0]. cbn [for_each].
  unfold bind, read_at, get, on_image, modify, ret.
  cbn [sectdata image reads fst snd].
  reflexivity.
Qed.

Lemma load_tracks_reads (io : random_read) (l : list Z) (s : load_state) :
  fst (for_each l (load_track io 1 6) s) = Next tt /\
  reads (snd (for_each l (load_track io 1 6) s)) =
    reads s ++ map (fun t => ((t * 1 + 0) * 5632, 5632)) l.
Proof.
  revert s. induction l as [|t l IH]; intros s.
  - cbn. now rewrite app_nil_r.
  - cbn [for_each]. unfold bind. rewrite load_track_any.
    destruct (IH {| sectdata := buffer_after io t (sectdata s);
                    image := generate_track esq_6_desc t 0
                               (map (deref (buffer_after io t (sectdata s)))
                                  (load_sectors 6))
                               6 109376 (image s);
                    reads := reads s ++ [((t * 1 + 0) * 5632, 5632)] |})
      as [E1 E2].
    rewrite E1, E2. cbn [reads map]. rewrite <- app_assoc. auto.
Qed.

End LoadAnyReader.

(** X1: [identify] and [load] agree, whatever the reader: when [identify] gives
    50, [load] asks for 80 reads of 5632 bytes, at the offsets 0, 5632,
    2 * 5632, ... in this order; when [identify] gives 0, [load] asks for no
    read and the image only has its variant set. *)
Theorem identify_agrees_with_load {F : floppy_image_format_t}
    (io : random_read) (buf : list byte) (img : floppy_image) :
  (identify io = 50 ->
   reads (snd (load io buf img)) =
     map (fun t => (t * 5632, 5632)) (zrange 0 80) /\
   length (reads (snd (load io buf img))) = 80%nat) /\
  (identify io = 0 ->
   reads (snd (load io buf img)) = [] /\
   image (snd (load io buf img)) = set_variant DSDD img).
Proof.
  destruct (identify_score io) as (_ & R50 & R0 & _).
  pose proof (find_size_cases io) as E.
  split.
  - intros H. apply R50 in H. destruct H as [H1 H2].
    rewrite H1, H2 in E. cbn in E.
    unfold load. rewrite load_body_tracks, E.
    destruct (load_tracks_reads io (zrange 0 80)
                {| sectdata := buf; image := img; reads := [] |}) as [E1 E2].
    unfold bind, on_image, modify, return_.
    destruct (for_each (zrange 0 80) (load_track io 1 6) _) as [[[]| |] s'];
      cbn [fst snd reads] in *; try discriminate.
    rewrite E2. cbn [app]. split.
    + apply map_ext. intros t. f_equal. lia.
    + now rewrite length_map, length_zrange.
  - intros H. apply R0 in H.
    assert (E0 : find_size io = (0, 0, 0)).
    { rewrite E. destruct (length_succeeds io); [|reflexivity].
      destruct (Z.eqb_spec (container_length io) 450560); [|reflexivity].
      exfalso. apply H. auto. }
    rewrite (load_unrecognized io buf img E0). auto.
Qed.

Lemma firstn_skipn_add {A} (n k : nat) (l : list A) :
  firstn n l ++ firstn k (skipn n l) = firstn (n + k) l.
Proof.
  revert l. induction n as [|n IH]; intros l; [reflexivity|].
  destruct l as [|x l]; cbn [firstn skipn Nat.add app].
  - now rewrite firstn_nil.
  - now rewrite IH.
Qed.

(** Two slices that touch make one slice. *)
Lemma slice_app (c : list byte) (off n k : Z) :
  0 <= off -> 0 <= n -> 0 <= k ->
  slice c off n ++ slice c (off + n) k = slice c off (n + k).
Proof.
  intros Ho Hn Hk. unfold slice.
  replace (Z.to_nat (off + n)) with (Z.to_nat n + Z.to_nat off)%nat by lia.
  rewrite <- skipn_skipn, firstn_skipn_add. f_equal. lia.
Qed.

(** The six sectors of a record, one behind the other, are the record. *)
Lemma record_sectors_data (c : list byte) (off : Z) :
  0 <= off -> flat_map data (record_sectors c off) = slice c off 5632.
Proof.
  intros Ho. rewrite record_sectors_6. cbn [flat_map data].
  rewrite app_nil_r.
  replace (off + 1024 * 0) with off by lia.
  replace (off + 1024 * 1) with (off + 1024) by lia.
  replace (off + 1024 * 2) with (off + 1024 + 1024) by lia.
  replace (off + 1024 * 3) with (off + 1024 + 1024 + 1024) by lia.
  replace (off + 1024 * 4) with (off + 1024 + 1024 + 1024 + 1024) by lia.
  replace (off + 1024 * 5) with (off + 1024 + 1024 + 1024 + 1024 + 1024)
    by lia.
  rewrite (slice_app c (off + 1024 + 1024 + 1024 + 1024) 1024 512) by lia.
  rewrite (slice_app c (off + 1024 + 1024 + 1024) 1024 (1024 + 512)) by lia.
  rewrite (slice_app c (off + 1024 + 1024) 1024 (1024 + (1024 + 512)))
    by lia.
  rewrite (slice_app c (off + 1024) 1024 (1024 + (1024 + (1024 + 512))))
    by lia.
  rewrite (slice_app c off 1024 (1024 + (1024 + (1024 + (1024 + 512)))))
    by lia.
  reflexivity.
Qed.

(** The records of the tracks [lo .. lo + m - 1], one behind the other. *)
Lemma records_concat (c : list byte) (m : nat) :
  forall lo, 0 <= lo ->
    flat_map (fun t => slice c ((t * 1 + 0) * 5632) 5632)
      (zrange lo (lo + Z.of_nat m)) =
    slice c (lo * 5632) (Z.of_nat m * 5632).
Proof.
  induction m as [|m IH]; intros lo Hlo.
  - rewrite zrange_empty by lia. unfold slice. reflexivity.
  - rewrite zrange_cons by lia. cbn [flat_map].
    replace (lo + Z.of_nat (S m)) with (lo + 1 + Z.of_nat m) by lia.
    rewrite IH by lia.
    replace ((lo * 1 + 0) * 5632) with (lo * 5632) by lia.
    replace ((lo + 1) * 5632) with (lo * 5632 + 5632) by lia.
    rewrite slice_app by lia. f_equal. lia.
Qed.

Lemma tracks_generated_recording (probe : Z * Z * Z)
    (on_track : Z -> list (list byte)) (c : list byte) (l : list Z)
    (img : list image_call) :
  tracks_generated (F := recording probe on_track) c l img =
  img ++ map (fun t => GenerateTrack esq_6_desc t 0
                         (record_sectors c ((t * 1 + 0) * 5632)) 6 109376) l.
Proof.
  unfold tracks_generated. revert img.
  induction l as [|t l IH]; intros img; cbn [fold_left map].
  - now rewrite app_nil_r.
  - rewrite IH. cbn [generate_track recording]. now rewrite <- app_assoc.
Qed.

Lemma flat_map_ext_In {A B} (f g : A -> list B) (l : list A) :
  (forall x, In x l -> f x = g x) -> flat_map f l = flat_map g l.
Proof.
  induction l as [|x l IH]; intros H; [reflexivity|].
  cbn [flat_map]. rewrite (H x) by (left; reflexivity).
  rewrite IH; [reflexivity|]. intros y Hy. apply H. now right.
Qed.

(** X2: [load] hands every byte of a recognized container on, once and in
    order: the payloads of the sectors of all the [generate_track] calls,
    one behind the other, are the container. *)
Theorem load_hands_over_container (probe : Z * Z * Z)
    (on_track : Z -> list (list byte)) (c buf : list byte)
    (Hc : Z.of_nat (length c) = 450560) :
  calls_data (image (snd (load (F := recording probe on_track)
                            (mem_reader c) buf []))) = c.
Proof.
  destruct (load_mem_recognized (F := recording probe on_track) c buf [] Hc)
    as [_ E].
  rewrite E, tracks_generated_recording.
  cbn [set_variant recording app]. unfold calls_data.
  rewrite flat_map_app. cbn [flat_map]. rewrite app_nil_r.
  rewrite flat_map_map.
  rewrite (flat_map_ext_In _ (fun t => slice c ((t * 1 + 0) * 5632) 5632)).
  - pose proof (records_concat c 80 0 (Z.le_refl 0)) as R.
    change (0 + Z.of_nat 80) with 80 in R. rewrite R.
    unfold slice. change (Z.to_nat (0 * 5632)) with 0%nat. cbn [skipn].
    apply firstn_all2. lia.
  - intros t Ht. apply in_zrange in Ht. apply record_sectors_data. lia.
Qed.

Lemma load_hands_over_container_witness :
  calls_data (image (snd (load (F := unprobed_medium)
                            (mem_reader (zeros 450560)) [] []))) =
  zeros 450560.
Proof.
  apply (load_hands_over_container (0, 0, 0) (fun _ => formatted_track)).
  unfold zeros. rewrite repeat_length. reflexivity.
Defined.

(** X3: What the local buffer of [load] held on entry never reaches the image
    when the container is held in memory: two loads of the same container
    that start from different buffer contents make the same calls. *)
Theorem load_ignores_initial_buffer {F : floppy_image_format_t}
    (c buf buf' : list byte) (img : floppy_image) :
  image (snd (load (mem_reader c) buf img)) =
  image (snd (load (mem_reader c) buf' img)) /\
  reads (snd (load (mem_reader c) buf img)) =
  reads (snd (load (mem_reader c) buf' img)).
Proof.
  destruct (Z.eq_dec (Z.of_nat (length c)) 450560) as [Hc|Hc].
  - destruct (load_mem_recognized c buf img Hc) as [R1 I1].
    destruct (load_mem_recognized c buf' img Hc) as [R2 I2].
    rewrite R1, R2, I1, I2. auto.
  - assert (E : find_size (mem_reader c) = (0, 0, 0)).
    { rewrite find_size_cases.
      unfold length_succeeds, container_length, mem_reader, ec_bool.
      cbn [rr_length fst snd ec_value].
      destruct (Z.eqb_spec (Z.of_nat (length c)) 450560); [contradiction|].
      reflexivity. }
    rewrite (load_unrecognized _ buf img E), (load_unrecognized _ buf' img E).
    auto.
Qed.

Section StaleBuffer.
Variables (probe : Z * Z * Z) (on_track : Z -> list (list byte)).

Lemma load_tracks_silent (io : random_read) (l : list Z)
    (s : load_state (F := recording probe on_track)) :
  (forall offset length, rr_read_at io offset length = []) ->
  image (snd (for_each l (load_track (F := recording probe on_track) io 1 6)
                s)) =
  image s ++
  map (fun t => GenerateTrack esq_6_desc t 0
                  (map (deref (sectdata s)) (load_sectors 6)) 6 109376) l /\
  fst (for_each l (load_track (F := recording probe on_track) io 1 6) s) =
  Next tt.
Proof.
  intros Hio. revert s. induction l as [|t l IH]; intros s.
  - cbn. now rewrite app_nil_r.
  - cbn [for_each]. unfold bind. rewrite load_track_any.
    assert (B : buffer_after io t (sectdata s) = sectdata s).
    { unfold buffer_after. rewrite Hio, firstn_nil. reflexivity. }
    rewrite B.
    match goal with |- context [for_each l _ ?s0] =>
      destruct (IH s0) as [E1 E2]
    end.
    rewrite E1, E2. cbn [image sectdata generate_track recording map].
    rewrite <- app_assoc. auto.
Qed.

End StaleBuffer.

(** X4: A reader that reports the recognized length and delivers no byte makes
    [load] generate all 80 tracks from what its local buffer held on entry:
    every track gets the same six sectors, cut out of that buffer. *)
Theorem load_passes_stale_buffer_on (probe : Z * Z * Z)
    (on_track : Z -> list (list byte)) (io : random_read) (buf : list byte)
    (Hlen : rr_length io = ({| ec_value := 0 |}, 450560))
    (Hio : forall offset length, rr_read_at io offset length = []) :
  image (snd (load (F := recording probe on_track) io buf [])) =
  map (fun t => GenerateTrack esq_6_desc t 0
                  (map (deref buf) (load_sectors 6)) 6 109376)
      (zrange 0 80) ++
  [SetVariant 0x44445344].
Proof.
  unfold load. rewrite load_body_tracks.
  assert (E : find_size io = (80, 1, 6)).
  { unfold find_size. rewrite Hlen. reflexivity. }
  rewrite E.
  destruct (load_tracks_silent probe on_track io (zrange 0 80)
              (@Build_load_state (recording probe on_track) buf [] []) Hio)
    as [E1 E2].
  unfold bind, on_image, modify, return_.
  destruct (for_each (zrange 0 80) (load_track io 1 6) _) as [[[]| |] s'];
    cbn [fst snd image sectdata] in *; try discriminate.
  rewrite E1. reflexivity.
Qed.

Lemma load_passes_stale_buffer_on_witness :
  image (snd (load (F := unprobed_medium) silent_reader (zeros 5632) [])) =
  map (fun t => GenerateTrack esq_6_desc t 0
                  (map (deref (zeros 5632)) (load_sectors 6)) 6 109376)
      (zrange 0 80) ++
  [SetVariant 0x44445344].
Proof.
  apply (load_passes_stale_buffer_on (0, 0, 0) (fun _ => formatted_track)
           silent_reader (zeros 5632)); reflexivity.
Defined.

(* ------------------------------------------------------------------ *)
(** * Further properties of save *)

Section SaveOutcomes.
Context {F : floppy_image_format_t}.

Lemma save_run_of (img : floppy_image) :
  result (save img) =
    match save_outcome img (coords_of img) with
    | Next _ => Some true
    | Return b => Some b
    | OutOfBounds => None
    end /\
  writes (snd (save img)) =
    writes_from img 0 (good_prefix img (coords_of img)) /\
  errors (snd (save img)) = save_errors img (coords_of img) /\
  fst (save img) =
    match save_outcome img (coords_of img) with
    | Next _ => Return true
    | o => o
    end.
Proof.
  unfold coords_of, probed_heads.
  destruct (get_geometry_mfm_pc img 2000) as [[tc hc] sc] eqn:Hp.
  cbn [fst snd]. fold (forced_heads hc).
  destruct (save_run img tc hc sc Hp) as (R & W & E).
  repeat split; try assumption.
  unfold save. rewrite (save_body_flat img tc hc sc _ Hp).
  unfold bind. rewrite save_steps_run.
  destruct (save_outcome img _) as [[]| |]; reflexivity.
Qed.

Lemma good_prefix_short (img : floppy_image) (l : list (Z * Z * Z))
    (c : Z * Z * Z) :
  first_bad img l = Some c ->
  (length (good_prefix img l) < length l)%nat.
Proof.
  unfold first_bad. induction l as [|x l IH]; [discriminate|].
  cbn [find good_prefix]. destruct (size_ok img x); cbn [negb length].
  - intros H. specialize (IH H). lia.
  - intros _. lia.
Qed.

End SaveOutcomes.

(** X5: How a call of [save] can end, for every image.  It returns true with
    no error line and one write per sector of the geometry; or it returns
    false with exactly one error line and fewer writes; or it indexes the
    extracted vector outside its bounds, with no error line and fewer
    writes.  So there is never more than one error line, and there is one
    exactly when [save] returns false. *)
Theorem save_outcomes {F : floppy_image_format_t} (img : floppy_image) :
  let st := snd (save img) in
  (result (save img) = Some true /\ errors st = [] /\
   length (writes st) = length (coords_of img)) \/
  (result (save img) = Some false /\
   (exists t s n, errors st = [(t, s, n)]) /\
   (length (writes st) < length (coords_of img))%nat) \/
  (result (save img) = None /\ fst (save img) = OutOfBounds /\
   errors st = [] /\
   (length (writes st) < length (coords_of img))%nat).
Proof.
  intros st. subst st.
  destruct (save_run_of img) as (R & W & E & O).
  rewrite R, W, E, O, length_writes_from.
  unfold save_outcome, save_errors.
  destruct (first_bad img (coords_of img)) as [c|] eqn:B.
  - pose proof (good_prefix_short img _ c B) as L.
    destruct (extracted_size img c) as [n|].
    + right. left. repeat split; [eauto|exact L].
    + right. right. repeat split. exact L.
  - left. repeat split.
    assert (G : good_prefix img (coords_of img) = coords_of img).
    { unfold first_bad in B.
      assert (A : forall x, In x (coords_of img) -> size_ok img x = true).
      { intros x Hx. pose proof (find_none _ _ B x Hx) as N.
        now apply negb_false_iff in N. }
      apply (good_prefix_all img _ A). }
    now rewrite G.
Qed.

(** X6: On a medium whose first track yields no sector at all, with a probe
    that reports a head count that is not negative, [save] indexes the empty
    vector: it issues no write, prints no error line and returns nothing. *)
Theorem save_indexes_empty_vector {F : floppy_image_format_t}
    (img : floppy_image)
    (Hh : 0 <= probed_heads img)
    (He : sectors_at img 0 0 = []) :
  fst (save img) = OutOfBounds /\
  result (save img) = None /\
  writes (snd (save img)) = [] /\
  errors (snd (save img)) = [].
Proof.
  destruct (save_run_of img) as (R & W & E & O).
  assert (C : exists rest, coords_of img = (0, 0, 0) :: rest).
  { unfold coords_of.
    set (hc := if probed_heads img =? 0 then 1 else probed_heads img).
    assert (Hc : 0 < hc)
      by (subst hc; destruct (Z.eqb_spec (probed_heads img) 0); lia).
    unfold save_coords. rewrite (zrange_cons 0 80) by lia.
    cbn [flat_map]. rewrite (zrange_cons 0 hc) by lia.
    cbn [flat_map]. rewrite (zrange_cons 0 6) by lia.
    cbn [map app]. eexists. reflexivity. }
  destruct C as [rest C].
  assert (S0 : size_ok img (0, 0, 0) = false).
  { unfold size_ok, extracted_size. rewrite He. reflexivity. }
  assert (X0 : extracted_size img (0, 0, 0) = None).
  { unfold extracted_size. rewrite He. reflexivity. }
  rewrite R, W, E, O. unfold save_outcome, save_errors, first_bad.
  rewrite C. cbn [find good_prefix]. rewrite S0. cbn [negb].
  rewrite X0. auto.
Qed.

Lemma save_indexes_empty_vector_witness :
  fst (save (F := blank_medium) []) = OutOfBounds /\
  result (save (F := blank_medium) []) = None /\
  writes (snd (save (F := blank_medium) [])) = [] /\
  errors (snd (save (F := blank_medium) [])) = [].
Proof.
  apply (save_indexes_empty_vector (F := blank_medium) []).
  - vm_compute. discriminate.
  - reflexivity.
Defined.

Section SaveBytes.
Context {F : floppy_image_format_t}.
Variable img : floppy_image.

(** Without overflow the offset has moved by the bytes written. *)
Lemma offset_after_written (l : list (Z * Z * Z)) :
  Forall (fun c => size_ok img c = true) l ->
  forall off, 0 <= off -> off + 1024 * Z.of_nat (length l) < 2 ^ 64 ->
    offset_after off l = off + written (writes_from img off l).
Proof.
  induction 1 as [|c l Hc Hl IH]; intros off H0 H1.
  - unfold offset_after, written. cbn. lia.
  - apply size_ok_spec in Hc. destruct Hc as [v [E1 E2]].
    destruct c as [[t h] s]. cbn [fst snd] in E1, E2.
    rewrite length_cons, Nat2Z.inj_succ in H1.
    assert (Hs : expected_size s = 1024 \/ expected_size s = 512).
    { unfold expected_size. destruct (s <? 5); auto. }
    assert (P : 2 ^ 64 = 18446744073709551616) by reflexivity.
    unfold offset_after. cbn [fold_left writes_from snd].
    fold (offset_after ((off + expected_size s) mod 2 ^ 64) l).
    rewrite Z.mod_small by lia. rewrite IH by lia.
    unfold written. cbn [fold_right snd].
    rewrite (nth_error_nth _ _ _ E1), E2. lia.
Qed.

Lemma save_file_offset (tc hc sc : Z) :
  get_geometry_mfm_pc img 2000 = (tc, hc, sc) ->
  file_offset (snd (save img)) =
  offset_after 0 (good_prefix img (save_coords 80 (forced_heads hc) 6)).
Proof.
  intros Hp. unfold save. rewrite (save_body_flat img tc hc sc _ Hp).
  unfold bind. rewrite save_steps_run.
  destruct (save_outcome img _) as [[]| |]; reflexivity.
Qed.

Lemma first_bad_unique (l : list (Z * Z * Z)) (c : Z * Z * Z) :
  first_bad img l = Some c ->
  exists post, l = good_prefix img l ++ c :: post.
Proof.
  unfold first_bad. induction l as [|x l IH]; [discriminate|].
  cbn [find good_prefix]. destruct (size_ok img x); cbn [negb].
  - intros H. destruct (IH H) as [post E]. exists post.
    cbn [app]. now rewrite <- E.
  - intros H. injection H as ->. exists l. reflexivity.
Qed.

End SaveBytes.

(** X7: When [save] stops at the sector (t, h, s), the first whose size does
    not fit, the container has received exactly the bytes in front of that
    sector's place: the writes add up to (t * heads + h) * 5632 + 1024 * s,
    and so does the running offset.  (For a probed head count an [int]
    holds.) *)
Theorem save_stops_at_sector {F : floppy_image_format_t}
    (img : floppy_image) (t h s : Z)
    (Hint : probed_heads img < 2 ^ 31)
    (Hbad : first_bad img (coords_of img) = Some (t, h, s)) :
  let heads := if probed_heads img =? 0 then 1 else probed_heads img in
  written (writes (snd (save img))) = sector_offset heads (t, h, s) /\
  file_offset (snd (save img)) = sector_offset heads (t, h, s) /\
  0 <= t < 80 /\ 0 <= h < heads /\ 0 <= s < 6.
Proof.
  intros heads.
  unfold coords_of, probed_heads in *.
  destruct (get_geometry_mfm_pc img 2000) as [[tc hc] sc] eqn:Hp.
  cbn [fst snd] in *. fold heads in Hbad.
  assert (Eh : forced_heads hc = heads) by reflexivity.
  destruct (save_run img tc hc sc Hp) as (_ & W & _).
  pose proof (save_file_offset img tc hc sc Hp) as FO.
  rewrite Eh in W, FO.
  set (cs := save_coords 80 heads 6) in *.
  destruct (first_bad_unique img cs _ Hbad) as [post Ecs].
  assert (Hin : In (t, h, s) cs) by (rewrite Ecs; apply in_elt).
  apply in_save_coords in Hin.
  assert (Hh : heads < 2 ^ 31)
    by (subst heads; destruct (hc =? 0); lia).
  assert (P : 2 ^ 64 = 18446744073709551616) by reflexivity.
  assert (Q : 2 ^ 31 = 2147483648) by reflexivity.
  assert (Hlen : Z.of_nat (length cs) = 80 * heads * 6)
    by (apply length_save_coords; lia).
  pose proof (length_good_prefix img cs) as Hpre.
  pose proof (offset_after_written img _ (good_prefix_ok img cs) 0
                (Z.le_refl 0) ltac:(lia)) as OW.
  pose proof (offsets_save_coords img heads ltac:(lia) ltac:(lia)) as Ho.
  fold cs in Ho.
  remember (good_prefix img cs) as pre eqn:Epre.
  rewrite Ecs in Ho.
  rewrite writes_from_app, !map_app in Ho.
  apply (f_equal (skipn (length pre))) in Ho.
  rewrite (proj2 (firstn_exact (map fst (writes_from img 0 pre)) _
                    (length pre)
                    ltac:(now rewrite length_map, length_writes_from)))
    in Ho.
  rewrite (proj2 (firstn_exact (map (sector_offset heads) pre) _
                    (length pre) ltac:(now rewrite length_map))) in Ho.
  cbn [writes_from map fst] in Ho.
  injection Ho as Ho _.
  rewrite W, FO. rewrite OW in Ho. rewrite OW.
  assert (Ho' : 0 + written (writes_from img 0 pre) =
                sector_offset heads (t, h, s)) by exact Ho.
  clear Ho. repeat split; lia.
Qed.

Lemma save_stops_at_sector_witness :
  written (writes (snd (save (F := damaged_medium) []))) =
    sector_offset 1 (1, 0, 2) /\
  file_offset (snd (save (F := damaged_medium) [])) =
    sector_offset 1 (1, 0, 2) /\
  0 <= 1 < 80 /\ 0 <= 0 < 1 /\ 0 <= 2 < 6.
Proof.
  apply (save_stops_at_sector (F := damaged_medium) [] 1 0 2).
  - reflexivity.
  - vm_compute. reflexivity.
Defined.

(* ------------------------------------------------------------------ *)
(** * The container save leaves, and load on it *)

Lemma write_bytes_end (c d : list byte) :
  write_bytes c (Z.of_nat (length c)) d = c ++ d.
Proof.
  unfold write_bytes. rewrite Nat2Z.id, firstn_all, Nat.sub_diag.
  rewrite skipn_all2 by lia. cbn [repeat app]. now rewrite app_nil_r.
Qed.

(** Writes laid out from the end of a container are appended to it. *)
Lemma container_after_laid_out (ws : list (Z * list byte)) :
  forall c, laid_out (Z.of_nat (length c)) ws ->
    container_after ws c = c ++ concat (map snd ws).
Proof.
  unfold container_after.
  induction ws as [|w ws IH]; intros c H.
  - cbn. now rewrite app_nil_r.
  - destruct H as (E & _ & H). cbn [fold_left map concat].
    rewrite E, write_bytes_end. rewrite IH.
    + now rewrite <- app_assoc.
    + rewrite length_app, Nat2Z.inj_add. exact H.
Qed.

Lemma length_concat_written (ws : list (Z * list byte)) :
  Z.of_nat (length (concat (map snd ws))) = written ws.
Proof.
  induction ws as [|w ws IH]; [reflexivity|].
  cbn [map concat]. rewrite length_app, Nat2Z.inj_add, IH.
  unfold written. reflexivity.
Qed.

Section SaveTotal.
Context {F : floppy_image_format_t}.
Variable img : floppy_image.

Lemma offset_after_tracks (hc : Z) (n : nat) :
  0 <= hc ->
  forall lo hi,
    Z.to_nat (hi - lo) = n -> 0 <= lo -> hi * hc * 5632 < 2 ^ 64 ->
    offset_after (lo * hc * 5632)
      (flat_map (fun t => flat_map (record_coords t) (zrange 0 hc))
         (zrange lo hi)) = Z.max lo hi * hc * 5632.
Proof.
  intros Hh. induction n as [|n IH]; intros lo hi Hn H0 H1.
  - rewrite (zrange_empty lo hi) by lia. unfold offset_after. cbn. lia.
  - rewrite (zrange_cons lo hi) by lia. cbn [flat_map].
    rewrite offset_after_app.
    assert (Hm : (lo + 1) * hc <= hi * hc)
      by (apply Z.mul_le_mono_nonneg_r; lia).
    assert (Hp : 0 <= lo * hc) by (apply Z.mul_nonneg_nonneg; lia).
    assert (P : 2 ^ 64 = 18446744073709551616) by reflexivity.
    destruct (offsets_heads img lo (lo * hc * 5632) (Z.to_nat hc) 0 hc)
      as [_ E2]; [lia..|].
    replace (lo * hc * 5632 + 0 * 5632) with (lo * hc * 5632) in E2 by lia.
    rewrite E2.
    replace (lo * hc * 5632 + Z.max 0 hc * 5632) with ((lo + 1) * hc * 5632)
      by lia.
    rewrite (IH (lo + 1) hi) by lia. lia.
Qed.

(** When every sector fits, [save] writes 5632 bytes for every track and
    head. *)
Lemma save_total (tc hc sc : Z) :
  get_geometry_mfm_pc img 2000 = (tc, hc, sc) ->
  0 <= hc < 2 ^ 31 ->
  (forall c, In c (save_coords 80 (forced_heads hc) 6) ->
     size_ok img c = true) ->
  writes (snd (save img)) =
    writes_from img 0 (save_coords 80 (forced_heads hc) 6) /\
  laid_out 0 (writes (snd (save img))) /\
  written (writes (snd (save img))) = 80 * forced_heads hc * 5632.
Proof.
  intros Hp Hh Hok.
  destruct (save_run img tc hc sc Hp) as (_ & W & _).
  destruct (good_prefix_all img _ Hok) as [G _]. rewrite G in W.
  assert (Hf : 0 < forced_heads hc < 2 ^ 31)
    by (unfold forced_heads; destruct (Z.eqb_spec hc 0); lia).
  assert (P : 2 ^ 64 = 18446744073709551616) by reflexivity.
  assert (Q : 2 ^ 31 = 2147483648) by reflexivity.
  destruct (save_layout img (forced_heads hc) (proj2 Hf)) as [L _].
  rewrite G in L.
  assert (Hlen : Z.of_nat (length (save_coords 80 (forced_heads hc) 6)) =
                 80 * forced_heads hc * 6)
    by (apply length_save_coords; lia).
  assert (A : Forall (fun c => size_ok img c = true)
                (save_coords 80 (forced_heads hc) 6))
    by (apply Forall_forall; exact Hok).
  pose proof (offset_after_written img _ A 0 (Z.le_refl 0) ltac:(lia)) as OW.
  pose proof (offset_after_tracks (forced_heads hc) 80 ltac:(lia) 0 80
                eq_refl (Z.le_refl 0) ltac:(lia)) as OT.
  rewrite <- save_coords_records in OT.
  change (0 * forced_heads hc * 5632) with 0 in OT.
  rewrite W. repeat split; [exact L|]. lia.
Qed.

End SaveTotal.

Lemma identify_mem (c : list byte) :
  identify (mem_reader c) =
  if Z.of_nat (length c) =? 450560 then 50 else 0.
Proof.
  unfold identify. rewrite find_size_cases.
  unfold length_succeeds, container_length, mem_reader, ec_bool.
  cbn [rr_length fst snd ec_value Z.eqb negb andb].
  destruct (Z.of_nat (length c) =? 450560); reflexivity.
Qed.

(** X8: The container [save] leaves when every sector fits, written into an
    empty container, has 450560 bytes for each head; so [identify] accepts
    what [save] wrote exactly when [save] went over one head, and gives 0
    for the container of a medium probed with two heads or more. *)
Theorem saved_container_recognized {F : floppy_image_format_t}
    (img : floppy_image)
    (Hh : 0 <= probed_heads img < 2 ^ 31)
    (Hok : forall c, In c (coords_of img) -> size_ok img c = true) :
  let heads := if probed_heads img =? 0 then 1 else probed_heads img in
  let c := container_after (writes (snd (save img))) [] in
  result (save img) = Some true /\
  Z.of_nat (length c) = 450560 * heads /\
  (identify (mem_reader c) = 50 <-> heads = 1) /\
  (identify (mem_reader c) = 0 <-> 2 <= heads).
Proof.
  intros heads c. subst c.
  unfold coords_of, probed_heads in *.
  destruct (get_geometry_mfm_pc img 2000) as [[tc hc] sc] eqn:Hp.
  cbn [fst snd] in *. fold heads in Hok.
  assert (Eh : forced_heads hc = heads) by reflexivity.
  destruct (save_total img tc hc sc Hp Hh) as (W & L & T);
    [rewrite Eh; exact Hok|].
  destruct (save_run img tc hc sc Hp) as (R & _ & _).
  rewrite Eh in R.
  destruct (good_prefix_all img _ Hok) as [_ B].
  unfold save_outcome in R. rewrite B in R.
  rewrite (container_after_laid_out _ [] L). cbn [app].
  rewrite identify_mem, length_concat_written, T, Eh.
  assert (Hpos : 0 < heads)
    by (subst heads; destruct (Z.eqb_spec hc 0); lia).
  split; [exact R|]. split; [lia|].
  destruct (Z.eqb_spec (80 * heads * 5632) 450560); split; intros; lia.
Qed.

Lemma all_fit_constant (probe : Z * Z * Z) (hc : Z) :
  forall c,
    In c (save_coords 80 hc 6) ->
    size_ok (F := recording probe (fun _ => formatted_track)) [] c = true.
Proof.
  intros [[t h] s] Hin.
  apply in_save_coords in Hin.
  destruct Hin as (_ & _ & Hs).
  assert (C : s = 0 \/ s = 1 \/ s = 2 \/ s = 3 \/ s = 4 \/ s = 5) by lia.
  destruct C as [->|[->|[->|[->|[->| ->]]]]]; reflexivity.
Qed.

Lemma saved_container_recognized_witness :
  let c := container_after
             (writes (snd (save (F := double_sided_medium) []))) [] in
  result (save (F := double_sided_medium) []) = Some true /\
  Z.of_nat (length c) = 450560 * 2 /\
  (identify (mem_reader c) = 50 <-> 2 = 1) /\
  (identify (mem_reader c) = 0 <-> 2 <= 2).
Proof.
  apply (saved_container_recognized (F := double_sided_medium) []).
  - vm_compute. split; [discriminate|reflexivity].
  - apply (all_fit_constant (80, 2, 6) 2).
Defined.

Lemma slice_app_l (a b : list byte) (o k : Z) :
  0 <= o -> 0 <= k -> o + k <= Z.of_nat (length a) ->
  slice (a ++ b) o k = slice a o k.
Proof.
  intros Ho Hk H. unfold slice.
  rewrite skipn_app, firstn_app, length_skipn.
  replace (Z.to_nat k - (length a - Z.to_nat o))%nat with 0%nat by lia.
  cbn [firstn]. apply app_nil_r.
Qed.

Lemma slice_app_r (a b : list byte) (o k : Z) :
  0 <= o ->
  slice (a ++ b) (Z.of_nat (length a) + o) k = slice b o k.
Proof.
  intros Ho. unfold slice.
  replace (Z.to_nat (Z.of_nat (length a) + o))
    with (length a + Z.to_nat o)%nat by lia.
  rewrite skipn_app, skipn_all2 by lia.
  replace (length a + Z.to_nat o - length a)%nat with (Z.to_nat o) by lia.
  reflexivity.
Qed.

Lemma slice_all (a : list byte) (k : Z) :
  Z.of_nat (length a) = k -> slice a 0 k = a.
Proof.
  intros H. unfold slice. cbn [Z.to_nat skipn]. apply firstn_all2. lia.
Qed.

(** A slice inside one of several blocks of the same length. *)
Lemma slice_in_blocks (block : Z -> list byte) (n : Z) (m : nat) :
  forall lo,
    (forall t, lo <= t < lo + Z.of_nat m -> Z.of_nat (length (block t)) = n) ->
    forall t o k,
      lo <= t < lo + Z.of_nat m -> 0 <= o -> 0 <= k -> o + k <= n ->
      slice (flat_map block (zrange lo (lo + Z.of_nat m)))
        ((t - lo) * n + o) k =
      slice (block t) o k.
Proof.
  induction m as [|m IH]; intros lo Hb t o k Ht Ho Hk Hn; [lia|].
  rewrite zrange_cons by lia. cbn [flat_map].
  assert (Hl : Z.of_nat (length (block lo)) = n) by (apply Hb; lia).
  destruct (Z.eq_dec t lo) as [->|Hne].
  - replace ((lo - lo) * n + o) with o by lia.
    apply slice_app_l; lia.
  - replace ((t - lo) * n + o)
      with (Z.of_nat (length (block lo)) + ((t - (lo + 1)) * n + o)) by lia.
    assert (0 <= (t - (lo + 1)) * n) by (apply Z.mul_nonneg_nonneg; lia).
    rewrite slice_app_r by lia.
    replace (lo + Z.of_nat (S m)) with (lo + 1 + Z.of_nat m) by lia.
    apply IH; try lia. intros t' Ht'. apply Hb. lia.
Qed.

Section SavedRecords.
Context {F : floppy_image_format_t}.
Variable img : floppy_image.

Lemma map_snd_writes_from (off : Z) (l : list (Z * Z * Z)) :
  map snd (writes_from img off l) = map (sector_data img) l.
Proof.
  revert off. induction l as [|[[t h] s] l IH]; intros off; [reflexivity|].
  cbn [writes_from map snd]. now rewrite IH.
Qed.

(** The six sectors of a saved record whose sizes fit, cut out again. *)
Lemma saved_record_slices (t h : Z) :
  (forall s, 0 <= s < 6 -> size_ok img (t, h, s) = true) ->
  Z.of_nat (length (saved_record img t h)) = 5632 /\
  forall i, 0 <= i < 6 ->
    slice (saved_record img t h) (1024 * i) (expected_size i) =
    nth (Z.to_nat i) (sectors_at img t h) [].
Proof.
  intros Hok.
  assert (V : forall s, 0 <= s < 6 ->
            Z.of_nat (length (sector_data img (t, h, s))) = expected_size s).
  { intros s Hs. specialize (Hok s Hs). apply size_ok_spec in Hok.
    destruct Hok as [v [E1 E2]]. cbn [fst snd] in *.
    unfold sector_data. cbn [fst snd].
    now rewrite (nth_error_nth _ _ _ E1). }
  pose proof (V 0 ltac:(lia)) as V0. pose proof (V 1 ltac:(lia)) as V1.
  pose proof (V 2 ltac:(lia)) as V2. pose proof (V 3 ltac:(lia)) as V3.
  pose proof (V 4 ltac:(lia)) as V4. pose proof (V 5 ltac:(lia)) as V5.
  change (expected_size 0) with 1024 in V0.
  change (expected_size 1) with 1024 in V1.
  change (expected_size 2) with 1024 in V2.
  change (expected_size 3) with 1024 in V3.
  change (expected_size 4) with 1024 in V4.
  change (expected_size 5) with 512 in V5.
  unfold saved_record, record_coords.
  change (zrange 0 6) with [0; 1; 2; 3; 4; 5]. cbn [map flat_map].
  rewrite app_nil_r.
  set (v0 := sector_data img (t, h, 0)) in *.
  set (v1 := sector_data img (t, h, 1)) in *.
  set (v2 := sector_data img (t, h, 2)) in *.
  set (v3 := sector_data img (t, h, 3)) in *.
  set (v4 := sector_data img (t, h, 4)) in *.
  set (v5 := sector_data img (t, h, 5)) in *.
  split.
  - rewrite !length_app, !Nat2Z.inj_add. lia.
  - intros i Hi.
    assert (C : i = 0 \/ i = 1 \/ i = 2 \/ i = 3 \/ i = 4 \/ i = 5) by lia.
    destruct C as [->|[->|[->|[->|[->| ->]]]]].
    + change (expected_size 0) with 1024. change (1024 * 0) with 0.
      rewrite slice_app_l by lia. apply slice_all. exact V0.
    + change (expected_size 1) with 1024.
      replace (1024 * 1) with (Z.of_nat (length v0) + 0) by lia.
      rewrite slice_app_r by lia.
      rewrite slice_app_l by lia. apply slice_all. exact V1.
    + change (expected_size 2) with 1024.
      replace (1024 * 2)
        with (Z.of_nat (length v0) + (Z.of_nat (length v1) + 0)) by lia.
      rewrite !slice_app_r by lia.
      rewrite slice_app_l by lia. apply slice_all. exact V2.
    + change (expected_size 3) with 1024.
      replace (1024 * 3)
        with (Z.of_nat (length v0) +
              (Z.of_nat (length v1) + (Z.of_nat (length v2) + 0))) by lia.
      rewrite !slice_app_r by lia.
      rewrite slice_app_l by lia. apply slice_all. exact V3.
    + change (expected_size 4) with 1024.
      replace (1024 * 4)
        with (Z.of_nat (length v0) +
              (Z.of_nat (length v1) +
               (Z.of_nat (length v2) + (Z.of_nat (length v3) + 0)))) by lia.
      rewrite !slice_app_r by lia.
      rewrite slice_app_l by lia. apply slice_all. exact V4.
    + change (expected_size 5) with 512.
      replace (1024 * 5)
        with (Z.of_nat (length v0) +
              (Z.of_nat (length v1) +
               (Z.of_nat (length v2) +
                (Z.of_nat (length v3) + (Z.of_nat (length v4) + 0)))))
        by lia.
      rewrite !slice_app_r by lia.
      apply slice_all. exact V5.
Qed.

End SavedRecords.

(* ------------------------------------------------------------------ *)
(** * load on what save wrote *)

(** X9: For a medium probed with one head (or none, which [save] turns into
    one) whose sectors all have the sizes of the policy, [load] on the
    container [save] wrote into an empty file hands [generate_track], for
    each of the 80 tracks in turn, exactly the six vectors [save] had
    extracted for that track, and then sets the variant. *)
Theorem load_after_save {F : floppy_image_format_t} (img : floppy_image)
    (probe : Z * Z * Z) (on_track : Z -> list (list byte))
    (buf : list byte)
    (Hh : probed_heads img = 0 \/ probed_heads img = 1)
    (Hok : forall c, In c (coords_of img) -> size_ok img c = true) :
  let c := container_after (writes (snd (save img))) [] in
  image (snd (load (F := recording probe on_track) (mem_reader c) buf [])) =
    map (fun t => GenerateTrack esq_6_desc t 0
                    (as_sectors (sectors_at img t 0)) 6 109376)
        (zrange 0 80) ++ [SetVariant 0x44445344].
Proof.
  intros c. subst c.
  assert (Ec : coords_of img = save_coords 80 1 6).
  { unfold coords_of. destruct Hh as [-> | ->]; reflexivity. }
  rewrite Ec in Hok.
  unfold probed_heads in Hh.
  destruct (get_geometry_mfm_pc img 2000) as [[tc hc] sc] eqn:Hp.
  cbn [fst snd] in Hh.
  assert (Ef : forced_heads hc = 1) by (destruct Hh as [-> | ->]; reflexivity).
  assert (Q : 2 ^ 31 = 2147483648) by reflexivity.
  destruct (save_total img tc hc sc Hp) as (W & L & T);
    [lia | rewrite Ef; exact Hok |].
  rewrite Ef in W, T.
  rewrite (container_after_laid_out _ [] L). cbn [app].
  assert (Hlen : Z.of_nat (length (concat (map snd (writes (snd (save img))))))
                 = 450560)
    by (rewrite length_concat_written, T; reflexivity).
  destruct (load_mem_recognized (F := recording probe on_track)
              _ buf [] Hlen) as [_ E].
  rewrite E, tracks_generated_recording.
  cbn [set_variant recording DSDD app]. f_equal.
  apply map_ext_in. intros t Ht. apply in_zrange in Ht.
  f_equal.
  rewrite W, map_snd_writes_from, <- flat_map_concat_map.
  rewrite save_coords_records, flat_map_flat_map.
  assert (B : forall t', 0 <= t' < 0 + Z.of_nat 80 ->
            (forall s, 0 <= s < 6 -> size_ok img (t', 0, s) = true)).
  { intros t' Ht' s Hs. apply Hok. apply in_save_coords. lia. }
  unfold record_sectors, as_sectors.
  apply map_ext_in. intros i Hi. apply in_zrange in Hi.
  f_equal.
  replace ((t * 1 + 0) * 5632 + 1024 * i)
    with ((t - 0) * 5632 + 1024 * i) by lia.
  change (zrange 0 80) with (zrange 0 (0 + Z.of_nat 80)).
  assert (Hs : 1024 * i + expected_size i <= 5632).
  { assert (C : i = 0 \/ i = 1 \/ i = 2 \/ i = 3 \/ i = 4 \/ i = 5) by lia.
    destruct C as [->|[->|[->|[->|[->| ->]]]]]; cbv; discriminate. }
  assert (Hk : 0 <= expected_size i).
  { assert (C : i = 0 \/ i = 1 \/ i = 2 \/ i = 3 \/ i = 4 \/ i = 5) by lia.
    destruct C as [->|[->|[->|[->|[->| ->]]]]]; cbv; discriminate. }
  rewrite (slice_in_blocks
             (fun x => flat_map (sector_data img)
                         (flat_map (record_coords x) (zrange 0 1)))
             5632 80 0).
  - change (zrange 0 1) with [0]. cbn [flat_map]. rewrite !app_nil_r.
    apply (saved_record_slices img t 0 (B t ltac:(lia))). lia.
  - intros t' Ht'. change (zrange 0 1) with [0]. cbn [flat_map].
    rewrite !app_nil_r.
    apply (saved_record_slices img t' 0 (B t' Ht')).
  - lia.
  - lia.
  - exact Hk.
  - exact Hs.
Qed.

Lemma load_after_save_witness :
  image (snd (load (F := unprobed_medium)
                (mem_reader
                   (container_after
                      (writes (snd (save (F := single_sided_medium) []))) []))
                [] [])) =
    map (fun t => GenerateTrack esq_6_desc t 0
                    (as_sectors
                       (sectors_at (F := single_sided_medium) [] t 0))
                    6 109376)
        (zrange 0 80) ++ [SetVariant 0x44445344].
Proof.
  apply (load_after_save (F := single_sided_medium) []
           (0, 0, 0) (fun _ => formatted_track) []).
  - right. reflexivity.
  - apply (all_fit_constant (80, 1, 6) 1).
Defined.

(* ------------------------------------------------------------------ *)
(** * save on what load built *)

Lemma length_slice (c : list byte) (off k : Z) :
  0 <= off -> 0 <= k -> off + k <= Z.of_nat (length c) ->
  Z.of_nat (length (slice c off k)) = k.
Proof.
  intros Ho Hk H. unfold slice. rewrite length_firstn, length_skipn. lia.
Qed.

Lemma skipn_repeat_sub {A} (x : A) (n m : nat) :
  skipn n (repeat x m) = repeat x (m - n).
Proof.
  revert m. induction n as [|n IH]; intros m.
  - now rewrite Nat.sub_0_r.
  - destruct m as [|m]; [reflexivity|]. cbn [repeat skipn Nat.sub]. apply IH.
Qed.

Lemma firstn_repeat_le {A} (x : A) (n m : nat) :
  (n <= m)%nat -> firstn n (repeat x m) = repeat x n.
Proof.
  revert m. induction n as [|n IH]; intros m H; [reflexivity|].
  destruct m as [|m]; [lia|]. cbn [repeat firstn]. f_equal. apply IH. lia.
Qed.

Lemma slice_zeros (n off k : Z) :
  0 <= off -> 0 <= k -> off + k <= n ->
  slice (zeros n) off k = zeros k.
Proof.
  intros Ho Hk H. unfold slice, zeros.
  rewrite skipn_repeat_sub, firstn_repeat_le by lia. reflexivity.
Qed.

Section Extracted.
Context {F : floppy_image_format_t}.
Variable img : floppy_image.
Variable c : list byte.
Variable t : Z.
Hypothesis Ht : 0 <= t.
Hypothesis Hc : (t + 1) * 5632 <= Z.of_nat (length c).
Hypothesis Hx :
  sectors_at img t 0 = map data (record_sectors c ((t * 1 + 0) * 5632)).

(** When the image gives back, for a track, the payloads a record of the
    container was cut into, its six sectors fit and [save] writes the
    record. *)
Lemma extracted_record :
  (forall s, 0 <= s < 6 -> size_ok img (t, 0, s) = true) /\
  saved_record img t 0 = slice c ((t * 1 + 0) * 5632) 5632.
Proof.
  assert (N : forall s, 0 <= s < 6 ->
            nth_error (sectors_at img t 0) (Z.to_nat s) =
            Some (slice c ((t * 1 + 0) * 5632 + 1024 * s) (expected_size s))).
  { intros s Hs. rewrite Hx, record_sectors_6.
    assert (C : s = 0 \/ s = 1 \/ s = 2 \/ s = 3 \/ s = 4 \/ s = 5) by lia.
    destruct C as [->|[->|[->|[->|[->| ->]]]]]; reflexivity. }
  split.
  - intros s Hs. apply size_ok_spec. cbn [fst snd].
    eexists. split; [apply (N s Hs)|].
    unfold vsize. apply length_slice.
    + lia.
    + unfold expected_size. destruct (s <? 5); lia.
    + unfold expected_size. destruct (Z.ltb_spec s 5); lia.
  - rewrite <- record_sectors_data by lia.
    unfold saved_record, record_coords.
    change (zrange 0 6) with [0; 1; 2; 3; 4; 5].
    cbn [map flat_map]. unfold sector_data. cbn [fst snd].
    rewrite (nth_error_nth _ _ _ (N 0 ltac:(lia))).
    rewrite (nth_error_nth _ _ _ (N 1 ltac:(lia))).
    rewrite (nth_error_nth _ _ _ (N 2 ltac:(lia))).
    rewrite (nth_error_nth _ _ _ (N 3 ltac:(lia))).
    rewrite (nth_error_nth _ _ _ (N 4 ltac:(lia))).
    rewrite (nth_error_nth _ _ _ (N 5 ltac:(lia))).
    rewrite record_sectors_6. reflexivity.
Qed.

End Extracted.

(** X10: [save] on the image [load] built from a recognized container writes
    the container again, byte for byte, provided the image layer gives back
    what it was handed: it reports one head (or none), and for each of the
    80 tracks the extraction yields the six payloads [generate_track] got. *)
Theorem save_after_load {F : floppy_image_format_t}
    (c buf : list byte) (img0 : floppy_image)
    (Hc : Z.of_nat (length c) = 450560)
    (Hh : probed_heads (image (snd (load (mem_reader c) buf img0))) = 0 \/
          probed_heads (image (snd (load (mem_reader c) buf img0))) = 1)
    (Hx : forall t, 0 <= t < 80 ->
            sectors_at (image (snd (load (mem_reader c) buf img0))) t 0 =
            map data (record_sectors c ((t * 1 + 0) * 5632))) :
  result (save (image (snd (load (mem_reader c) buf img0)))) = Some true /\
  container_after
    (writes (snd (save (image (snd (load (mem_reader c) buf img0)))))) [] = c.
Proof.
  set (img := image (snd (load (mem_reader c) buf img0))) in *.
  assert (R : forall t, 0 <= t < 80 ->
            (forall s, 0 <= s < 6 -> size_ok img (t, 0, s) = true) /\
            saved_record img t 0 = slice c ((t * 1 + 0) * 5632) 5632).
  { intros t Ht. apply extracted_record; [lia|lia|apply Hx; exact Ht]. }
  assert (Hok : forall x, In x (save_coords 80 1 6) -> size_ok img x = true).
  { intros [[t h] s] Hin. apply in_save_coords in Hin.
    replace h with 0 by lia. apply (R t); lia. }
  unfold probed_heads in Hh.
  destruct (get_geometry_mfm_pc img 2000) as [[tc hc] sc] eqn:Hp.
  cbn [fst snd] in Hh.
  assert (Ef : forced_heads hc = 1) by (destruct Hh as [-> | ->]; reflexivity).
  assert (Q : 2 ^ 31 = 2147483648) by reflexivity.
  destruct (save_total img tc hc sc Hp) as (W & L & T);
    [lia | rewrite Ef; exact Hok |].
  destruct (save_run img tc hc sc Hp) as (Rs & _ & _).
  rewrite Ef in W, T, Rs.
  destruct (good_prefix_all img _ Hok) as [_ B].
  unfold save_outcome in Rs. rewrite B in Rs.
  split; [exact Rs|].
  rewrite (container_after_laid_out _ [] L). cbn [app].
  rewrite W, map_snd_writes_from, <- flat_map_concat_map.
  rewrite save_coords_records, flat_map_flat_map.
  rewrite (flat_map_ext_In _ (fun t => slice c ((t * 1 + 0) * 5632) 5632)).
  - pose proof (records_concat c 80 0 (Z.le_refl 0)) as E.
    change (0 + Z.of_nat 80) with 80 in E. rewrite E.
    unfold slice. change (Z.to_nat (0 * 5632)) with 0%nat. cbn [skipn].
    apply firstn_all2. lia.
  - intros t Ht. apply in_zrange in Ht.
    change (zrange 0 1) with [0]. cbn [flat_map]. rewrite app_nil_r.
    apply (R t Ht).
Qed.

Lemma save_after_load_witness :
  result (save (F := single_sided_medium)
            (image (snd (load (F := single_sided_medium)
                           (mem_reader (zeros 450560)) [] [])))) =
    Some true /\
  container_after
    (writes (snd (save (F := single_sided_medium)
                    (image (snd (load (F := single_sided_medium)
                                   (mem_reader (zeros 450560)) [] []))))))
    [] = zeros 450560.
Proof.
  apply (save_after_load (F := single_sided_medium) (zeros 450560) [] []).
  - unfold zeros. rewrite repeat_length. reflexivity.
  - right. reflexivity.
  - intros t Ht. rewrite record_sectors_6. cbn [map data].
    rewrite !slice_zeros by lia. reflexivity.
Defined.

(* ------------------------------------------------------------------ *)
(** * save with a negative head count *)

(** X11: [save] replaces a head count of 0 and no other: when the probe
    reports a negative head count the head loop runs no turn, so [save]
    returns true with no write and no error line, the offset still 0 and
    the container still empty. *)
Theorem save_negative_heads {F : floppy_image_format_t}
    (img : floppy_image)
    (Hn : probed_heads img < 0) :
  result (save img) = Some true /\
  writes (snd (save img)) = [] /\
  errors (snd (save img)) = [] /\
  file_offset (snd (save img)) = 0 /\
  container_after (writes (snd (save img))) [] = [].
Proof.
  unfold probed_heads in Hn.
  destruct (get_geometry_mfm_pc img 2000) as [[tc hc] sc] eqn:Hp.
  cbn [fst snd] in Hn.
  assert (Ef : forced_heads hc = hc).
  { unfold forced_heads. destruct (Z.eqb_spec hc 0); [lia|reflexivity]. }
  destruct (save_run img tc hc sc Hp) as (R & W & E).
  pose proof (save_file_offset img tc hc sc Hp) as O.
  rewrite Ef, save_coords_negative in R, W, E, O by lia.
  rewrite W. repeat split; assumption.
Qed.

Lemma save_negative_heads_witness :
  result (save (F := recording (80, -1, 6) (fun _ => [])) []) = Some true /\
  writes (snd (save (F := recording (80, -1, 6) (fun _ => [])) [])) = [] /\
  errors (snd (save (F := recording (80, -1, 6) (fun _ => [])) [])) = [] /\
  file_offset (snd (save (F := recording (80, -1, 6) (fun _ => [])) [])) = 0 /\
  container_after
    (writes (snd (save (F := recording (80, -1, 6) (fun _ => [])) []))) []
    = [].
Proof.
  apply (save_negative_heads (F := recording (80, -1, 6) (fun _ => [])) []).
  reflexivity.
Defined.
